(** * findbrokeninternallinks: anchors, link resolution and the two passes

    A shallow embedding of [findbrokeninternallinks.py].  The program parses
    every input file twice: a first pass collects the anchors of all files in
    one set of strings ["path:element"], a second pass resolves every
    [<a href>] and reports those whose anchor is not in the set.

    The library calls the program makes are kept apart from the program:
    - what depends on the file system or on lxml ([etree.parse], [exists],
      [isdir], [realpath], [walk]) and [urlparse] are fields of an
      environment [Env];
    - the pure functions of [posixpath] and [fnmatch] are written out. *)

From Stdlib Require Import Ascii String NArith List.
From stdpp Require Import base option list sorting gmap strings pretty.

Local Open Scope stdpp_scope.

#[local] Set Warnings "-register-all,-clear-no-such-hyp".

(** ** Python strings *)

Module Str.

Definition truthy (s : string) : bool := negb (bool_decide (s = "")).

Definition startswith (s p : string) : bool := String.prefix p s.

Definition endswith (s p : string) : bool :=
  String.prefix (String.rev p) (String.rev s).

Fixpoint drop_while (f : ascii → bool) (s : string) : string :=
  match s with
  | "" => ""
  | String c s' => if f c then drop_while f s' else s
  end.

Fixpoint filter (f : ascii → bool) (s : string) : string :=
  match s with
  | "" => ""
  | String c s' => if f c then String c (filter f s') else filter f s'
  end.

Fixpoint contains (c : ascii) (s : string) : bool :=
  match s with
  | "" => false
  | String d s' => Ascii.eqb c d || contains c s'
  end.

(** [s.split(sep)] for a one-character separator. *)
Fixpoint split (sep : ascii) (s : string) : list string :=
  match s with
  | "" => [""]
  | String c s' =>
      if Ascii.eqb c sep then "" :: split sep s'
      else match split sep s' with
           | w :: ws => String c w :: ws
           | [] => [String c ""]
           end
  end.

(** [s.split(sep, 1)] when [sep] occurs in [s]: the text before the first
    [sep] and the text after it. *)
Fixpoint split1 (sep : ascii) (s : string) : string * string :=
  match s with
  | "" => ("", "")
  | String c s' =>
      if Ascii.eqb c sep then ("", s')
      else let '(a, b) := split1 sep s' in (String c a, b)
  end.

(** [sep.join(l)] *)
Definition join (sep : string) (l : list string) : string :=
  String.concat sep l.

(** [s.rstrip(c)] *)
Definition rstrip (c : ascii) (s : string) : string :=
  String.rev (drop_while (Ascii.eqb c) (String.rev s)).

End Str.

(** ** [posixpath] *)

Module posixpath.

Definition sep : ascii := "/"%char.

Definition isabs (s : string) : bool := Str.startswith s "/".

(** [join(a, b)] with one component [b]. *)
Definition join (a b : string) : string :=
  if Str.startswith b "/" then b
  else if negb (Str.truthy a) || Str.endswith a "/" then a +:+ b
  else a +:+ "/" +:+ b.

(** [i = p.rfind('/') + 1; head = p[:i]] *)
Definition head_of (p : string) : string :=
  String.rev (Str.drop_while (λ c, negb (Ascii.eqb c sep)) (String.rev p)).

Definition all_sep (s : string) : bool :=
  bool_decide (Str.drop_while (Ascii.eqb sep) s = "").

Definition dirname (p : string) : string :=
  let head := head_of p in
  if Str.truthy head && negb (all_sep head) then Str.rstrip sep head
  else head.

(** One turn of the loop over the components in [normpath]. *)
Definition norm_step (initial_slashes : nat) (new_comps : list string)
    (comp : string) : list string :=
  if bool_decide (comp = "") || bool_decide (comp = ".") then new_comps
  else if negb (bool_decide (comp = ".."))
          || (bool_decide (initial_slashes = 0)
              && bool_decide (new_comps = []))
          || (negb (bool_decide (new_comps = []))
              && bool_decide (last new_comps = Some ".."))
       then new_comps ++ [comp]
       else removelast new_comps.

Definition normpath (path : string) : string :=
  if negb (Str.truthy path) then "."
  else
    let initial_slashes :=
      if Str.startswith path "/" then
        if Str.startswith path "//" && negb (Str.startswith path "///")
        then 2 else 1
      else 0 in
    let comps := foldl (norm_step initial_slashes) [] (Str.split sep path) in
    let path' := Str.join "/" comps in
    let path' :=
      match initial_slashes with
      | 0 => path'
      | 1 => "/" +:+ path'
      | _ => "//" +:+ path'
      end in
    if Str.truthy path' then path' else ".".

End posixpath.

(** ** The parsed document: lxml elements *)

(** What the program reads of an lxml element: its tag, its attributes, the
    line it starts on, and its children in document order. *)
Inductive element : Type :=
  Element (tag : string) (attrib : gmap string string) (sourceline : N)
          (children : list element).

Definition tag (e : element) : string :=
  match e with Element t _ _ _ => t end.
Definition attrib (e : element) : gmap string string :=
  match e with Element _ a _ _ => a end.
Definition sourceline (e : element) : N :=
  match e with Element _ _ l _ => l end.
Definition children (e : element) : list element :=
  match e with Element _ _ _ cs => cs end.

(** [e.iter()]: the element and all elements below it, in document order. *)
Fixpoint iter (e : element) : list element :=
  match e with
  | Element _ _ _ cs =>
      e :: (fix over (l : list element) : list element :=
              match l with
              | [] => []
              | c :: l' => iter c ++ over l'
              end) cs
  end.

(** [e.iterdescendants()]: as [iter], without the element itself. *)
Definition iterdescendants (e : element) : list element :=
  flat_map iter (children e).

(** [root.findall('.//T[@key]')], where [T] is a tag or [*] ([None]): the
    path [.//] selects among the descendants of [root], never [root]. *)
Definition selects (t : option string) (key : string) (e : element) : bool :=
  match t with
  | Some name => bool_decide (tag e = name)
  | None => true
  end && bool_decide (is_Some (attrib e !! key)).

Definition findall (t : option string) (key : string) (root : element)
    : list element :=
  List.filter (selects t key) (iterdescendants root).

(** ** The environment: lxml, the file system, urllib *)

(** The six fields of [urlparse]'s result. *)
Record ParseResult : Type := mkParseResult {
  url_scheme : string;
  url_netloc : string;
  url_path : string;
  url_params : string;
  url_query : string;
  url_fragment : string;
}.

(** What [etree.parse(path, parser)] does: it raises, or it returns a tree,
    whose [getroot()] is the root element, or [None] for a document without
    a root element (lxml reads an empty file so, without raising). *)
Inductive parse_outcome : Type :=
  | ParseRaises
  | ParseTree (getroot : option element).

Record Env : Type := mkEnv {
  (** [etree.parse(path, HTMLParser())] *)
  lxml_parse : string → parse_outcome;
  (** [os.path.exists] *)
  path_exists : string → bool;
  (** [os.path.isdir] *)
  isdir : string → bool;
  (** [os.path.realpath] *)
  realpath : string → string;
  (** [urllib.parse.urlparse]; [None] when it raises [ValueError] *)
  urlparse : string → option ParseResult;
  (** [os.walk(directory)], as the list of its [(root, dirnames, filenames)] *)
  walk : string → list (string * list string * list string);
}.

(** [etree.parse(path, parser).getroot()] when it is an element: the root
    of the document at [path], for a file that parses to a document with a
    root. *)
Definition etree_parse (env : Env) (path : string) : option element :=
  match lxml_parse env path with
  | ParseTree (Some root) => Some root
  | _ => None
  end.

(** ** The processor's state and the monad of its methods *)

(** [_anchors] of the one [FileProcessor], and what has been printed to
    standard output, line by line. *)
Record State : Type := mkState {
  anchors : gset string;
  stdout : list string;
}.

Inductive exn : Type := ValueError | KeyError.

Inductive result (A : Type) : Type :=
  | Ok (a : A) (s : State)
  | Raised (e : exn) (s : State).
Arguments Ok {A} a s.
Arguments Raised {A} e s.

Definition final {A} (r : result A) : State :=
  match r with Ok _ s => s | Raised _ s => s end.

Definition completes {A} (r : result A) : Prop :=
  match r with Ok _ _ => True | Raised _ _ => False end.

Definition M (A : Type) : Type := State → result A.

Global Instance M_ret : MRet M := λ A a s, Ok a s.
Global Instance M_bind : MBind M := λ A B f m s,
  match m s with
  | Ok a s' => f a s'
  | Raised e s' => Raised e s'
  end.

Definition raise {A} (e : exn) : M A := λ s, Raised e s.

Definition get_anchors : M (gset string) := λ s, Ok (anchors s) s.

Definition add_anchor (a : string) : M unit :=
  λ s, Ok tt (mkState ({[a]} ∪ anchors s) (stdout s)).

Definition print (line : string) : M unit :=
  λ s, Ok tt (mkState (anchors s) (stdout s ++ [line])).

(** [d[key]] *)
Definition getitem (d : gmap string string) (key : string) : M string :=
  match d !! key with
  | Some v => mret v
  | None => raise KeyError
  end.

(** [for x in l: body(x)] *)
Fixpoint for_each {A} (l : list A) (body : A → M unit) : M unit :=
  match l with
  | [] => mret tt
  | x :: l' => body x ;; for_each l' body
  end.

Definition dq : string := String "034"%char "".

(** ** [FileProcessor] *)

Section FileProcessor.
Context (env : Env).

Definition unable_to_parse (path : string) : string :=
  "*** Unable to parse HTML from " +:+ dq +:+ path +:+ dq.

(** [try: tree = etree.parse(...); return tree.getroot()], and the
    [except] with its message: a tree without a root returns [None] with
    nothing printed. *)
Definition _ParseFile (path : string) : M (option element) :=
  match lxml_parse env path with
  | ParseTree root => mret root
  | ParseRaises => print (unable_to_parse path) ;; mret None
  end.

Definition _AddAnchor (path element_name : string) : M unit :=
  add_anchor (path +:+ ":" +:+ element_name).

Definition _CollectAnchors (path : string) : M unit :=
  root ← _ParseFile path;
  match root with
  | Some root =>
      _AddAnchor path "" ;;
      for_each (findall (Some "a") "name" root) (λ elt,
        name ← getitem (attrib elt) "name"; _AddAnchor path name) ;;
      for_each (findall None "id" root) (λ elt,
        id ← getitem (attrib elt) "id"; _AddAnchor path id)
  | None => mret tt
  end.

(** The path a link refers to: lines 99 to 103 of [_GetAnchor]. *)
Definition ref_path_of (path : string) (url : ParseResult) : string :=
  if Str.truthy (url_path url) then
    if posixpath.isabs (url_path url) then url_path url
    else realpath env
           (posixpath.normpath
              (posixpath.join (posixpath.dirname path) (url_path url)))
  else path.

(** [None] stands for the [ValueError] that [urlparse] raises. *)
Definition _GetAnchor (path href : string) : option string :=
  url ← urlparse env href;
  if Str.truthy (url_scheme url) then Some ""
  else
    let ref_path := ref_path_of path url in
    if negb (Str.truthy (url_fragment url)) then
      if path_exists env ref_path then Some ""
      else Some (ref_path +:+ ":" +:+ url_fragment url)
    else
      let ref_path :=
        if isdir env ref_path then ref_path +:+ "/index.html"
        else ref_path in
      Some (ref_path +:+ ":" +:+ url_fragment url).

Definition broken_link_line1 (path : string) (elt : element) : string :=
  "*** Line " +:+ pretty (sourceline elt) +:+ " in " +:+ dq +:+ path
    +:+ dq +:+ ":".

Definition broken_link_line2 (href : string) : string :=
  "***     Broken link to " +:+ dq +:+ href +:+ dq.

Definition _ReportBrokenLink (path : string) (elt : element)
    (href : string) : M unit :=
  print (broken_link_line1 path elt) ;;
  print (broken_link_line2 href).

(** The body of the loop of [_FindBrokenLinks]. *)
Definition check_link (path : string) (elt : element) : M unit :=
  href ← getitem (attrib elt) "href";
  match _GetAnchor path href with
  | None => raise ValueError
  | Some anchor =>
      known ← get_anchors;
      if Str.truthy anchor && negb (bool_decide (anchor ∈ known))
      then _ReportBrokenLink path elt href
      else mret tt
  end.

Definition _FindBrokenLinks (path : string) : M unit :=
  root ← _ParseFile path;
  match root with
  | Some root => for_each (findall (Some "a") "href" root) (check_link path)
  | None => mret tt
  end.

Definition ProcessPaths (paths : list string) : M unit :=
  for_each paths _CollectAnchors ;;
  for_each paths _FindBrokenLinks.

End FileProcessor.

(** [FileProcessor()] before anything is printed. *)
Definition init : State := mkState ∅ [].

(** ** The command line: which files are processed *)

(** [fnmatch.filter(names, pat)] under [posixpath], for patterns made of
    literal characters, [*] and [?] (no pattern of the program has a
    bracket). *)
Fixpoint fnmatch (pat name : string) : bool :=
  match pat with
  | "" => bool_decide (name = "")
  | String c pat' =>
      if Ascii.eqb c "*" then
        (fix star (n : string) : bool :=
           fnmatch pat' n
           || match n with
              | "" => false
              | String _ n' => star n'
              end) name
      else
        match name with
        | "" => false
        | String d name' =>
            (Ascii.eqb c "?" || Ascii.eqb c d) && fnmatch pat' name'
        end
  end.

Definition fnfilter (names : list string) (pat : string) : list string :=
  List.filter (fnmatch pat) names.

Definition FILE_PATTERNS : list string := ["*.htm"; "*.HTM"; "*.html"; "*.HTML"].

(** [sorted] on a list of [str]: Python orders strings by code point, which
    on UTF-8 encoded paths is the order of their bytes. *)
Definition sorted (l : list string) : list string := merge_sort String.le l.

Section CommandLine.
Context (env : Env).

Definition _GetPathsForDir (directory : string) : list string :=
  foldl (λ paths '(root, _, filenames),
           let fns := foldl (λ fns pattern, fns ++ fnfilter filenames pattern)
                            [] FILE_PATTERNS in
           paths ++ map (λ fn, realpath env (posixpath.join root fn)) fns)
        [] (walk env directory).

Definition GetFilePaths (file_and_dir_paths : list string) : list string :=
  sorted
    (foldl (λ all_paths path,
              if isdir env path then all_paths ++ _GetPathsForDir path
              else all_paths ++ [realpath env path])
           [] file_and_dir_paths).

(** [args.inputs or '.']: iterating over the string ['.'] gives ['.']. *)
Definition main (inputs : list string) : M unit :=
  let paths := GetFilePaths (match inputs with [] => ["."] | _ => inputs end) in
  ProcessPaths env paths.

End CommandLine.

(** Standard output as the bytes written: every [print] ends its line. *)
Definition stdout_bytes (s : State) : string :=
  String.concat "" (map (λ line, line +:+ String "010"%char "") (stdout s)).

(** ** One [urlparse]

    [urlparse] is a field of the environment; the statements below hold for
    whatever it returns.  The small site below runs with this one: CPython's
    [urlsplit] followed by [urlparse]'s split of the parameters; of the
    checks of the network location it has the one on unmatched brackets. *)

Module urllib.

Definition is_alpha (c : ascii) : bool :=
  let n := N_of_ascii c in
  ((65 <=? n) && (n <=? 90) || (97 <=? n) && (n <=? 122))%N.

Definition is_scheme_char (c : ascii) : bool :=
  let n := N_of_ascii c in
  (is_alpha c || (48 <=? n) && (n <=? 57)
   || Ascii.eqb c "+" || Ascii.eqb c "-" || Ascii.eqb c ".")%N.

Definition lower_char (c : ascii) : ascii :=
  let n := N_of_ascii c in
  if ((65 <=? n) && (n <=? 90))%N then ascii_of_N (n + 32) else c.

Fixpoint lower (s : string) : string :=
  match s with
  | "" => ""
  | String c s' => String (lower_char c) (lower s')
  end.

Fixpoint forallb (f : ascii → bool) (s : string) : bool :=
  match s with
  | "" => true
  | String c s' => f c && forallb f s'
  end.

(** [_WHATWG_C0_CONTROL_OR_SPACE] *)
Definition is_c0_or_space (c : ascii) : bool := (N_of_ascii c <=? 32)%N.

(** [_UNSAFE_URL_BYTES_TO_REMOVE] *)
Definition is_unsafe (c : ascii) : bool :=
  Ascii.eqb c "009" || Ascii.eqb c "010" || Ascii.eqb c "013".

(** The text before the first of [/], [?], [#], and the text from there. *)
Fixpoint splitnetloc (s : string) : string * string :=
  match s with
  | "" => ("", "")
  | String c s' =>
      if Ascii.eqb c "/" || Ascii.eqb c "?" || Ascii.eqb c "#" then ("", s)
      else let '(a, b) := splitnetloc s' in (String c a, b)
  end.

Definition uses_params : list string :=
  [""; "ftp"; "hdl"; "prospero"; "http"; "imap"; "https"; "shttp"; "rtsp";
   "rtspu"; "sip"; "sips"; "mms"; "sftp"; "tel"].

(** [_splitparams]: at the first [;] after the last [/]. *)
Definition splitparams (url : string) : string * string :=
  let head := posixpath.head_of url in
  let tail := String.substring (String.length head)
                (String.length url - String.length head) url in
  if Str.contains ";" tail then
    let '(a, b) := Str.split1 ";" tail in (head +:+ a, b)
  else (url, "").

Definition urlparse (url : string) : option ParseResult :=
  let url := Str.drop_while is_c0_or_space url in
  let url := Str.filter (λ c, negb (is_unsafe c)) url in
  let '(scheme, url) :=
    if Str.contains ":" url then
      let '(pre, post) := Str.split1 ":" url in
      match pre with
      | String c _ =>
          if is_alpha c && forallb is_scheme_char pre
          then (lower pre, post) else ("", url)
      | "" => ("", url)
      end
    else ("", url) in
  let '(netloc, url) :=
    if Str.startswith url "//"
    then splitnetloc (String.substring 2 (String.length url - 2) url)
    else ("", url) in
  if negb (eqb (Str.contains "[" netloc) (Str.contains "]" netloc))
  then None
  else
    let '(url, fragment) :=
      if Str.contains "#" url then Str.split1 "#" url else (url, "") in
    let '(url, query) :=
      if Str.contains "?" url then Str.split1 "?" url else (url, "") in
    let '(url, params) :=
      if bool_decide (scheme ∈ uses_params) && Str.contains ";" url
      then splitparams url else (url, "") in
    Some (mkParseResult scheme netloc url params query fragment).

End urllib.

(** ** A small site

    A file system without symbolic links, with [/site] as the working
    directory, used by the examples:
<<
    /site/index.html       /site/a.html         /site/docs/index.html
    /site/bad.html    (not readable: etree.parse raises OSError)
    /site/empty.html  (an empty file: lxml gives a tree without a root)
    /site/logo.png    (lxml's parser makes a document of its bytes)
>>
    A path that is not in the file system, or is a directory, makes
    [etree.parse] raise. *)

Module Site.

Definition elt (t : string) (attrs : list (string * string)) (line : N)
    (cs : list element) : element :=
  Element t (list_to_map attrs) line cs.

(** [/site/index.html] *)
Definition index_html : element :=
  elt "html" [("id", "top")] 1 [
    elt "head" [] 2 [
      elt "link" [("rel", "stylesheet"); ("href", "missing.css")] 3 []];
    elt "body" [] 4 [
      elt "a" [("name", "intro")] 5 [];
      elt "h1" [("id", "title")] 6 [];
      elt "a" [("href", "#title")] 7 [];
      elt "a" [("href", "#top")] 8 [];
      elt "a" [("href", "a.html#sec")] 9 [];
      elt "a" [("href", "docs#start")] 10 [];
      elt "a" [("href", "docs#nope")] 11 [];
      elt "a" [("href", "logo.png")] 12 [];
      elt "a" [("href", "https://example.com/x#y")] 13 [];
      elt "img" [("src", "nothere.png")] 14 []]].

(** [/site/a.html] *)
Definition a_html : element :=
  elt "html" [] 1 [
    elt "body" [] 2 [
      elt "h2" [("id", "sec")] 3 [];
      elt "p" [] 4 [
        elt "a" [("href", "index.html#intro")] 4 [];
        elt "a" [("href", "/site/index.html#title")] 5 [];
        elt "a" [("href", "/site/./index.html#title")] 6 []]]].

(** [/site/docs/index.html] *)
Definition docs_index_html : element :=
  elt "html" [] 1 [
    elt "body" [] 2 [
      elt "p" [("id", "start")] 3 [
        elt "a" [("href", "../a.html#sec")] 3 []]]].

(** What lxml makes of [/site/logo.png]: a document with neither anchors
    nor links. *)
Definition logo_png : element :=
  elt "html" [] 1 [elt "body" [] 1 [elt "p" [] 1 []]].

Inductive entry : Type :=
  | Dir
  | File (parsed : parse_outcome).

Definition files : list (string * entry) :=
  [("/", Dir); ("/site", Dir); ("/site/docs", Dir);
   ("/site/index.html", File (ParseTree (Some index_html)));
   ("/site/a.html", File (ParseTree (Some a_html)));
   ("/site/docs/index.html", File (ParseTree (Some docs_index_html)));
   ("/site/bad.html", File ParseRaises);
   ("/site/empty.html", File (ParseTree None));
   ("/site/logo.png", File (ParseTree (Some logo_png)))].

Definition cwd : string := "/site".

Fixpoint lookup (p : string) (l : list (string * entry)) : option entry :=
  match l with
  | [] => None
  | (q, e) :: l' => if bool_decide (p = q) then Some e else lookup p l'
  end.

(** Without symbolic links [realpath] is [abspath]. *)
Definition realpath (p : string) : string :=
  posixpath.normpath (posixpath.join cwd p).

Definition entry_at (p : string) : option entry := lookup (realpath p) files.

Definition lxml_parse (p : string) : parse_outcome :=
  match entry_at p with
  | Some (File parsed) => parsed
  | _ => ParseRaises
  end.

Definition path_exists (p : string) : bool :=
  bool_decide (is_Some (entry_at p)).

Definition isdir (p : string) : bool :=
  match entry_at p with
  | Some Dir => true
  | _ => false
  end.

Definition walk (directory : string)
    : list (string * list string * list string) :=
  if bool_decide (realpath directory = "/site") then
    [(directory, ["docs"],
      ["a.html"; "bad.html"; "empty.html"; "index.html"; "logo.png"]);
     (posixpath.join directory "docs", [], ["index.html"])]
  else if bool_decide (realpath directory = "/site/docs") then
    [(directory, [], ["index.html"])]
  else [].

Definition env : Env :=
  mkEnv lxml_parse path_exists isdir realpath urllib.urlparse walk.

(** The same site when the system lists the directories in another order. *)
Definition walk' (directory : string)
    : list (string * list string * list string) :=
  if bool_decide (realpath directory = "/site") then
    [(directory, ["docs"],
      ["logo.png"; "index.html"; "empty.html"; "bad.html"; "a.html"]);
     (posixpath.join directory "docs", [], ["index.html"])]
  else if bool_decide (realpath directory = "/site/docs") then
    [(directory, [], ["index.html"])]
  else [].

Definition env' : Env :=
  mkEnv lxml_parse path_exists isdir realpath urllib.urlparse walk'.

End Site.

(** ** Two files, one with an href that [urlparse] refuses

    [/pair/a.html] defines the anchor [target] and has a link whose href
    makes [urlparse] raise [ValueError] (an opening bracket without its
    closing one in the network location); [/pair/b.html] has a link to the
    anchor of [a.html] and a link to an anchor that [a.html] does not
    define. *)

Module Pair.

Definition a_html : element :=
  Site.elt "html" [] 1 [
    Site.elt "body" [] 2 [
      Site.elt "h1" [("id", "target")] 3 [];
      Site.elt "a" [("href", "//[x/y")] 4 []]].

Definition b_html : element :=
  Site.elt "html" [] 1 [
    Site.elt "body" [] 2 [
      Site.elt "a" [("href", "a.html#target")] 3 [];
      Site.elt "a" [("href", "a.html#nope")] 4 []]].

Definition files : list (string * Site.entry) :=
  [("/", Site.Dir); ("/pair", Site.Dir);
   ("/pair/a.html", Site.File (ParseTree (Some a_html)));
   ("/pair/b.html", Site.File (ParseTree (Some b_html)))].

Definition cwd : string := "/pair".

Definition realpath (p : string) : string :=
  posixpath.normpath (posixpath.join cwd p).

Definition entry_at (p : string) : option Site.entry :=
  Site.lookup (realpath p) files.

Definition lxml_parse (p : string) : parse_outcome :=
  match entry_at p with
  | Some (Site.File parsed) => parsed
  | _ => ParseRaises
  end.

Definition path_exists (p : string) : bool :=
  bool_decide (is_Some (entry_at p)).

Definition isdir (p : string) : bool :=
  match entry_at p with
  | Some Site.Dir => true
  | _ => false
  end.

Definition walk (directory : string)
    : list (string * list string * list string) :=
  if bool_decide (realpath directory = "/pair") then
    [(directory, [], ["a.html"; "b.html"])]
  else [].

Definition env : Env :=
  mkEnv lxml_parse path_exists isdir realpath urllib.urlparse walk.

End Pair.

(** ** What the two passes compute

    The methods thread the state; these functions say what a method adds to
    the set and prints, given the set it starts from.  The lemmas of the next
    part show that the methods compute them. *)

(** An outcome of a method that only prints: the lines, and the exception
    that stopped it, if any. *)
Definition trace : Type := list string * option exn.

Definition finish (t : trace) (s : State) : result unit :=
  let s' := mkState (anchors s) (stdout s ++ t.1) in
  match t.2 with
  | None => Ok tt s'
  | Some e => Raised e s'
  end.

(** Traces in sequence: the first exception stops the rest. *)
Fixpoint chain {A} (f : A → trace) (l : list A) : trace :=
  match l with
  | [] => ([], None)
  | x :: l' =>
      match f x with
      | (lines, None) => let t := chain f l' in (lines ++ t.1, t.2)
      | (lines, Some e) => (lines, Some e)
      end
  end.

Section Traces.
Context (env : Env).

Definition anchor_of (path key : string) (e : element) : string :=
  path +:+ ":" +:+ default "" (attrib e !! key).

Definition file_anchors (path : string) : gset string :=
  match etree_parse env path with
  | None => ∅
  | Some root =>
      {[path +:+ ":" +:+ ""]}
      ∪ list_to_set (anchor_of path "name" <$> findall (Some "a") "name" root)
      ∪ list_to_set (anchor_of path "id" <$> findall None "id" root)
  end.

Definition parse_diag (path : string) : list string :=
  match lxml_parse env path with
  | ParseRaises => [unable_to_parse path]
  | ParseTree _ => []
  end.

Definition link_trace (known : gset string) (path : string)
    (elt : element) : trace :=
  match attrib elt !! "href" with
  | None => ([], Some KeyError)
  | Some href =>
      match _GetAnchor env path href with
      | None => ([], Some ValueError)
      | Some anchor =>
          if Str.truthy anchor && negb (bool_decide (anchor ∈ known))
          then ([broken_link_line1 path elt; broken_link_line2 href], None)
          else ([], None)
      end
  end.

Definition file_trace (known : gset string) (path : string) : trace :=
  match etree_parse env path with
  | None => (parse_diag path, None)
  | Some root =>
      chain (link_trace known path) (findall (Some "a") "href" root)
  end.

Definition all_anchors (paths : list string) : gset string :=
  ⋃ (file_anchors <$> paths).

End Traces.

(** ** Notions the statements use *)

(** How many of the lines are [line]. *)
Definition count_line (line : string) (out : list string) : nat :=
  length (filter (λ l, l = line) out).

(** The document with nothing left but what [.//a[@href]] can see: [<a>]
    elements keep their [href] and lose every other attribute, all other
    elements lose all their attributes ([href] and [src] among them). *)
Fixpoint only_a_href (e : element) : element :=
  match e with
  | Element t a l cs =>
      Element t
        (if bool_decide (t = "a") then filter (λ kv, kv.1 = "href") a else ∅)
        l (List.map only_a_href cs)
  end.

(** The environment in which the file at [path] parses to [root]. *)
Definition with_document (env : Env) (path : string) (root : element) : Env :=
  mkEnv (λ p, if bool_decide (p = path) then ParseTree (Some root)
              else lxml_parse env p)
        (path_exists env) (isdir env) (realpath env) (urlparse env) (walk env).

(** The files [os.walk] lists under a directory, each with the directory it
    is in. *)
Definition listing (env : Env) (directory : string) : list (string * string) :=
  flat_map (λ '(root, _, filenames), pair root <$> filenames)
           (walk env directory).

(** Two environments over the same files in the same state: every question
    gets the same answer, and [os.walk] lists the same files, in whatever
    order the system returns them. *)
Record same_files (e1 e2 : Env) : Prop := {
  same_parse : ∀ p, lxml_parse e1 p = lxml_parse e2 p;
  same_exists : ∀ p, path_exists e1 p = path_exists e2 p;
  same_isdir : ∀ p, isdir e1 p = isdir e2 p;
  same_realpath : ∀ p, realpath e1 p = realpath e2 p;
  same_urlparse : ∀ h, urlparse e1 h = urlparse e2 h;
  same_listing : ∀ d, listing e1 d ≡ₚ listing e2 d;
}.

(** The files of one directory that [_GetPathsForDir] keeps, pattern by
    pattern, and their paths. *)
Definition matching (filenames : list string) : list string :=
  flat_map (fnfilter filenames) FILE_PATTERNS.

Definition paths_in (env : Env)
    (entry : string * list string * list string) : list string :=
  let '(root, _, filenames) := entry in
  List.map (λ fn, realpath env (posixpath.join root fn)) (matching filenames).

(** The paths one argument of the command line stands for. *)
Definition paths_of (env : Env) (path : string) : list string :=
  if isdir env path then _GetPathsForDir env path else [realpath env path].

(** The paths [_GetPathsForDir] returns for one listed file: one for each
    pattern its name matches. *)
Definition hits (env : Env) (file : string * string) : list string :=
  List.map (λ fn, realpath env (posixpath.join file.1 fn))
    (flat_map (λ pat, if fnmatch pat file.2 then [file.2] else [])
              FILE_PATTERNS).

(** ** The debugging aid *)

(** [_PrintAnchors]; the one call of it in the source is commented out.
    [sorted(self._anchors)] sorts the elements of the set, in whatever order
    the set yields them. *)
Definition _PrintAnchors (path : string) : M unit :=
  print ("==== ANCHORS in " +:+ path +:+ ":") ;;
  known ← get_anchors;
  for_each (sorted (elements known))
           (λ anchor, print ("====     " +:+ anchor)).

(** ** Notions the further statements use *)

(** The element names a document defines for links into it: the empty one
    (the file itself), the [name] of an [<a>] below the root, the [id] of
    any element below the root. *)
Definition defines (root : element) (x : string) : Prop :=
  x = ""
  ∨ (∃ e, e ∈ findall (Some "a") "name" root ∧ attrib e !! "name" = Some x)
  ∨ (∃ e, e ∈ findall None "id" root ∧ attrib e !! "id" = Some x).

(** A path without a colon. *)
Definition colon_free (p : string) : Prop := Str.contains ":" p = false.

(** [t] is the end of [n]: [n] itself, or what is left of [n] after some of
    its first characters. *)
Fixpoint is_tail (t n : string) : bool :=
  bool_decide (t = n)
  || match n with
     | "" => false
     | String _ n' => is_tail t n'
     end.

Definition has_html_extension (fn : string) : bool :=
  is_tail ".htm" fn || is_tail ".HTM" fn || is_tail ".html" fn
  || is_tail ".HTML" fn.

(** A pattern character that stands for itself. *)
Definition literal_char (c : ascii) : bool :=
  negb (Ascii.eqb c "*") && negb (Ascii.eqb c "?").

(** The path in the target of an internal link: the path the link refers
    to, with [/index.html] after it for a fragment into a directory (lines
    113 to 115 of [_GetAnchor]). *)
Definition target_path (env : Env) (path : string) (url : ParseResult)
    : string :=
  let rp := ref_path_of env path url in
  if Str.truthy (url_fragment url) && isdir env rp then rp +:+ "/index.html"
  else rp.

(** * Properties *)

(** ** The library functions on examples *)

Example normpath_dots :
  posixpath.normpath "/site/./docs/../a.html" = "/site/a.html".
Proof. vm_compute. reflexivity. Qed.

Example normpath_relative : posixpath.normpath "../x//y/" = "../x/y".
Proof. vm_compute. reflexivity. Qed.

Example normpath_two_slashes : posixpath.normpath "//a/../b" = "//b".
Proof. vm_compute. reflexivity. Qed.

Example dirname_file : posixpath.dirname "/site/docs/a.html" = "/site/docs".
Proof. vm_compute. reflexivity. Qed.

Example dirname_root : posixpath.dirname "/a.html" = "/".
Proof. vm_compute. reflexivity. Qed.

Example dirname_bare : posixpath.dirname "a.html" = "".
Proof. vm_compute. reflexivity. Qed.

Example join_relative :
  posixpath.join "/site/docs" "../a.html" = "/site/docs/../a.html".
Proof. vm_compute. reflexivity. Qed.

Example join_absolute : posixpath.join "/site/docs" "/a.html" = "/a.html".
Proof. vm_compute. reflexivity. Qed.

Example fnfilter_html :
  fnfilter ["a.html"; "b.txt"; "c.htm"; ".html"; "d.HTML"] "*.html"
  = ["a.html"; ".html"].
Proof. vm_compute. reflexivity. Qed.

Example urlparse_relative :
  urllib.urlparse "a.html#sec" = Some (mkParseResult "" "" "a.html" "" "" "sec").
Proof. vm_compute. reflexivity. Qed.

Example urlparse_external :
  urllib.urlparse "https://example.com/x;p?q=1#y"
  = Some (mkParseResult "https" "example.com" "/x" "p" "q=1" "y").
Proof. vm_compute. reflexivity. Qed.

Example urlparse_fragment_only :
  urllib.urlparse "#top" = Some (mkParseResult "" "" "" "" "" "top").
Proof. vm_compute. reflexivity. Qed.

Example urlparse_raises : urllib.urlparse "//[x/y" = None.
Proof. vm_compute. reflexivity. Qed.

Example site_paths :
  GetFilePaths Site.env []
  = [] ∧
  GetFilePaths Site.env ["."]
  = ["/site/a.html"; "/site/bad.html"; "/site/docs/index.html";
     "/site/empty.html"; "/site/index.html"].
Proof. split; vm_compute; reflexivity. Qed.

(** ** The monad and the loops *)

Lemma bind_Ok {A B} (m : M A) (k : A → M B) s a s' :
  m s = Ok a s' → (m ≫= k) s = k a s'.
Proof. intros H. unfold mbind, M_bind. by rewrite H. Qed.

Lemma bind_Raised {A B} (m : M A) (k : A → M B) s e s' :
  m s = Raised e s' → (m ≫= k) s = Raised e s'.
Proof. intros H. unfold mbind, M_bind. by rewrite H. Qed.

Lemma finish_nil s : finish ([], None) s = Ok tt s.
Proof. destruct s. unfold finish. simpl. by rewrite app_nil_r. Qed.

Lemma finish_raise e s : finish ([], Some e) s = Raised e s.
Proof. destruct s. unfold finish. simpl. by rewrite app_nil_r. Qed.

Lemma anchors_finish t s : anchors (final (finish t s)) = anchors s.
Proof. unfold finish. by destruct t as [lines [e|]]. Qed.

Lemma stdout_finish t s : stdout (final (finish t s)) = stdout s ++ t.1.
Proof. unfold finish. by destruct t as [lines [e|]]. Qed.

Lemma completes_finish t s : completes (finish t s) ↔ t.2 = None.
Proof. unfold finish. destruct t as [lines [e|]]; simpl; naive_solver. Qed.

(** A loop whose body only prints, as a function of the set, only prints
    the chain of what its turns print. *)
Lemma for_each_trace {A} (body : A → M unit) (f : gset string → A → trace)
    (l : list A) :
  (∀ x s, x ∈ l → body x s = finish (f (anchors s) x) s) →
  ∀ s, for_each l body s = finish (chain (f (anchors s)) l) s.
Proof.
  induction l as [|x l IH]; intros Hbody s.
  - simpl. by rewrite finish_nil.
  - simpl. pose proof (Hbody x s (list_elem_of_here _ _)) as Hx.
    destruct (f (anchors s) x) as [lines [e|]] eqn:Hf.
    + erewrite bind_Raised by exact Hx. done.
    + erewrite bind_Ok by exact Hx.
      rewrite IH by (intros; apply Hbody; by apply list_elem_of_further).
      unfold finish. simpl. rewrite <-(assoc_L (++)).
      by destruct (chain _ l) as [ls [e|]].
Qed.

Lemma findall_key t key root :
  Forall (λ e, is_Some (attrib e !! key)) (findall t key root).
Proof.
  apply Forall_forall. intros e [_ He]%list_elem_of_In%filter_In.
  unfold selects in He. apply andb_prop in He as [_ He].
  by apply bool_decide_eq_true in He.
Qed.

Lemma findall_tag name key root :
  Forall (λ e, tag e = name) (findall (Some name) key root).
Proof.
  apply Forall_forall. intros e [_ He]%list_elem_of_In%filter_In.
  unfold selects in He. apply andb_prop in He as [He _].
  by apply bool_decide_eq_true in He.
Qed.

(** ** The collection pass *)

Section Collection.
Context (env : Env).

Lemma add_loop path key l s :
  Forall (λ e, is_Some (attrib e !! key)) l →
  for_each l (λ elt, v ← getitem (attrib elt) key; _AddAnchor path v) s
  = Ok tt (mkState (anchors s ∪ list_to_set (anchor_of path key <$> l))
                   (stdout s)).
Proof.
  intros Hl. revert s. induction Hl as [|e l [v Hv] _ IH]; intros s.
  - destruct s as [A out]. simpl. unfold mret, M_ret. f_equal. f_equal.
    set_solver.
  - simpl. unfold mbind at 1, M_bind at 1. unfold getitem. rewrite Hv.
    unfold mbind at 1, M_bind at 1. unfold mret at 1, M_ret at 1.
    unfold _AddAnchor at 1, add_anchor at 1. rewrite IH. simpl.
    f_equal. f_equal. unfold anchor_of at 2. rewrite Hv. simpl. set_solver.
Qed.

(** [_CollectAnchors] never raises: it adds the anchors of the file and
    prints the diagnostic of a file on which [etree.parse] raises. *)
Lemma _CollectAnchors_spec path s :
  _CollectAnchors env path s
  = Ok tt (mkState (anchors s ∪ file_anchors env path)
                   (stdout s ++ parse_diag env path)).
Proof.
  unfold _CollectAnchors, _ParseFile, file_anchors, parse_diag, etree_parse.
  destruct (lxml_parse env path) as [|[root|]].
  - destruct s as [A out]. unfold mbind, M_bind, print, mret, M_ret. simpl.
    f_equal. f_equal. set_solver.
  - unfold mbind at 1, M_bind at 1, mret at 1, M_ret at 1.
    unfold mbind at 1, M_bind at 1.
    unfold mbind at 1, M_bind at 1.
    unfold _AddAnchor at 1, add_anchor at 1.
    rewrite add_loop by apply findall_key.
    rewrite add_loop by apply findall_key.
    simpl. rewrite app_nil_r. f_equal. f_equal. set_solver.
  - destruct s as [A out]. unfold mbind, M_bind, mret, M_ret. simpl.
    rewrite app_nil_r. f_equal. f_equal. set_solver.
Qed.

Lemma collect_all_spec paths s :
  for_each paths (_CollectAnchors env) s
  = Ok tt (mkState (anchors s ∪ all_anchors env paths)
                   (stdout s ++ flat_map (parse_diag env) paths)).
Proof.
  revert s. induction paths as [|p paths IH]; intros s.
  - destruct s as [A out]. simpl. unfold mret, M_ret, all_anchors. simpl.
    rewrite app_nil_r. f_equal. f_equal. set_solver.
  - simpl. erewrite bind_Ok by apply _CollectAnchors_spec.
    rewrite IH. simpl. rewrite <-(assoc_L (++)). f_equal. f_equal.
    unfold all_anchors. simpl. set_solver.
Qed.

End Collection.

(** ** The validation pass *)

Section Validation.
Context (env : Env).

Lemma check_link_spec path elt s :
  check_link env path elt s = finish (link_trace env (anchors s) path elt) s.
Proof.
  unfold check_link, link_trace, getitem.
  destruct (attrib elt !! "href") as [href|];
    [|by rewrite finish_raise].
  unfold mbind at 1, M_bind at 1, mret at 1, M_ret at 1.
  destruct (_GetAnchor env path href) as [anchor|];
    [|by rewrite finish_raise].
  unfold mbind, M_bind, get_anchors.
  destruct (Str.truthy anchor && negb (bool_decide (anchor ∈ anchors s))).
  - unfold _ReportBrokenLink, mbind, M_bind, print, finish. simpl.
    by rewrite <-(assoc_L (++)).
  - by rewrite finish_nil.
Qed.

Lemma _FindBrokenLinks_spec path s :
  _FindBrokenLinks env path s = finish (file_trace env (anchors s) path) s.
Proof.
  unfold _FindBrokenLinks, _ParseFile, file_trace, parse_diag, etree_parse.
  destruct (lxml_parse env path) as [|[root|]].
  - done.
  - unfold mbind at 1, M_bind at 1, mret at 1, M_ret at 1.
    apply (for_each_trace _ (λ known, link_trace env known path)).
    intros. apply check_link_spec.
  - unfold mbind, M_bind, mret, M_ret. by rewrite finish_nil.
Qed.

Lemma validate_all_spec paths s :
  for_each paths (_FindBrokenLinks env) s
  = finish (chain (file_trace env (anchors s)) paths) s.
Proof.
  apply (for_each_trace _ (file_trace env)).
  intros. apply _FindBrokenLinks_spec.
Qed.

Lemma ProcessPaths_spec paths s :
  let known := anchors s ∪ all_anchors env paths in
  ProcessPaths env paths s
  = finish (chain (file_trace env known) paths)
           (mkState known (stdout s ++ flat_map (parse_diag env) paths)).
Proof.
  unfold ProcessPaths. erewrite bind_Ok by apply collect_all_spec.
  by rewrite validate_all_spec.
Qed.

End Validation.

Lemma chain_exn {A} (f : A → trace) l e :
  (chain f l).2 = Some e → ∃ x, x ∈ l ∧ (f x).2 = Some e.
Proof.
  induction l as [|x l IH]; simpl; [done|].
  destruct (f x) as [lines [e'|]] eqn:Hf; simpl.
  - intros [= ->]. exists x. split; [left|by rewrite Hf].
  - intros (y & Hy & He)%IH. exists y. split; [by right|done].
Qed.

(** The only exception that leaves [ProcessPaths] is the [ValueError] of
    [urlparse]: [findall] has selected the elements on the attribute that
    the loops then read, so no [KeyError] is raised. *)
Lemma ProcessPaths_raises env paths s e s' :
  ProcessPaths env paths s = Raised e s' → e = ValueError.
Proof.
  rewrite ProcessPaths_spec. simpl. unfold finish.
  destruct (chain _ paths) as [lines [e'|]] eqn:Hchain; simpl; [|done].
  intros [= -> _].
  assert ((chain (file_trace env (anchors s ∪ all_anchors env paths)) paths).2
          = Some e) as Hraise by (by rewrite Hchain).
  apply chain_exn in Hraise as (p & _ & Hp). unfold file_trace in Hp.
  destruct (etree_parse env p) as [root|]; [|done].
  apply chain_exn in Hp as (elt & Helt & He).
  eapply Forall_forall in Helt; [|apply findall_key]. destruct Helt as [href Hhref].
  unfold link_trace in He. rewrite Hhref in He.
  destruct (_GetAnchor env p href) as [anchor|]; [|by injection He].
  by destruct (Str.truthy anchor && _).
Qed.

(** ** Strings the program builds *)

Lemma append_nil_l s : "" +:+ s = s.
Proof. reflexivity. Qed.

Lemma append_cons c a s : String c a +:+ s = String c (a +:+ s).
Proof. reflexivity. Qed.

Lemma append_eq_nil a b : a +:+ b = "" → a = "" ∧ b = "".
Proof. destruct a; [by rewrite append_nil_l|by rewrite append_cons]. Qed.

(** An anchor ["path:element"] is never the empty string. *)
Lemma anchor_truthy p f : Str.truthy (p +:+ ":" +:+ f) = true.
Proof.
  unfold Str.truthy. apply negb_true_iff, bool_decide_eq_false.
  intros [_ H]%append_eq_nil. by rewrite append_cons in H.
Qed.

Lemma truthy_false s : Str.truthy s = false ↔ s = "".
Proof.
  unfold Str.truthy. rewrite negb_false_iff. apply bool_decide_eq_true.
Qed.

Lemma truthy_true s : Str.truthy s = true ↔ s ≠ "".
Proof.
  unfold Str.truthy. rewrite negb_true_iff. apply bool_decide_eq_false.
Qed.

(** ** Links that are never reported *)

Section Links.
Context (env : Env).

Lemma check_link_skip path elt href s :
  attrib elt !! "href" = Some href →
  _GetAnchor env path href = Some "" →
  check_link env path elt s = Ok tt s.
Proof.
  intros Hhref Hanchor. rewrite check_link_spec. unfold link_trace.
  rewrite Hhref, Hanchor. apply finish_nil.
Qed.

(** C6: a link whose href parses with a nonempty scheme resolves to the
    empty anchor; checking it prints nothing and leaves the state as it
    was, whatever the anchor set and the file system are. *)
Theorem C6_external_link_ignored path elt href url s :
  attrib elt !! "href" = Some href →
  urlparse env href = Some url →
  url_scheme url ≠ "" →
  _GetAnchor env path href = Some "" ∧ check_link env path elt s = Ok tt s.
Proof.
  intros Hhref Hurl Hscheme.
  assert (_GetAnchor env path href = Some "") as Hanchor.
  { unfold _GetAnchor. rewrite Hurl. simpl.
    by apply truthy_true in Hscheme as ->. }
  split; [done|]. by apply check_link_skip with href.
Qed.

(** C5: a link without a fragment whose resolved path exists resolves to
    the empty anchor; checking it prints nothing, whatever the anchor set
    holds (the path need not be a processed file nor define an anchor). *)
Theorem C5_existing_path_never_flagged path elt href url s :
  attrib elt !! "href" = Some href →
  urlparse env href = Some url →
  url_fragment url = "" →
  path_exists env (ref_path_of env path url) = true →
  _GetAnchor env path href = Some "" ∧ check_link env path elt s = Ok tt s.
Proof.
  intros Hhref Hurl Hfrag Hexists.
  assert (_GetAnchor env path href = Some "") as Hanchor.
  { unfold _GetAnchor. rewrite Hurl. simpl.
    destruct (Str.truthy (url_scheme url)); [done|].
    apply truthy_false in Hfrag as ->. simpl. by rewrite Hexists. }
  split; [done|]. by apply check_link_skip with href.
Qed.


End Links.

(** ** The anchor set over a run *)

(** C8: every insertion adds one string to the anchor set and keeps the rest,
    so the set only grows over the collection of a file and of all files;
    the validation of a file and of all files leaves the set as it was, also
    when it stops on an exception; the set at the end of [ProcessPaths] is
    the set at the end of its collection pass. *)
Theorem C8_anchor_set_grows_then_frozen env paths s :
  (∀ p name s0,
      _AddAnchor p name s0
      = Ok tt (mkState ({[p +:+ ":" +:+ name]} ∪ anchors s0) (stdout s0)))
  ∧ (∀ p s0, anchors s0 ⊆ anchors (final (_CollectAnchors env p s0)))
  ∧ anchors s ⊆ anchors (final (for_each paths (_CollectAnchors env) s))
  ∧ (∀ p s0, anchors (final (_FindBrokenLinks env p s0)) = anchors s0)
  ∧ (∀ s0, anchors (final (for_each paths (_FindBrokenLinks env) s0))
           = anchors s0)
  ∧ anchors (final (ProcessPaths env paths s))
    = anchors (final (for_each paths (_CollectAnchors env) s)).
Proof.
  repeat split.
  - intros p s0. rewrite _CollectAnchors_spec. simpl. set_solver.
  - rewrite collect_all_spec. simpl. set_solver.
  - intros p s0. by rewrite _FindBrokenLinks_spec, anchors_finish.
  - intros s0. by rewrite validate_all_spec, anchors_finish.
  - rewrite ProcessPaths_spec, collect_all_spec. simpl.
    by rewrite anchors_finish.
Qed.

(** ** The three theorems on links, on the small site *)

Lemma C6_external_link_ignored_witness :
  _GetAnchor Site.env "/site/index.html" "https://example.com/x#y" = Some ""
  ∧ check_link Site.env "/site/index.html"
      (Site.elt "a" [("href", "https://example.com/x#y")] 13 []) init
    = Ok tt init.
Proof.
  apply (C6_external_link_ignored Site.env "/site/index.html" _
           "https://example.com/x#y"
           (mkParseResult "https" "example.com" "/x" "" "" "y")).
  - vm_compute. reflexivity.
  - vm_compute. reflexivity.
  - simpl. discriminate.
Defined.

Lemma C5_existing_path_never_flagged_witness :
  _GetAnchor Site.env "/site/index.html" "logo.png" = Some ""
  ∧ check_link Site.env "/site/index.html"
      (Site.elt "a" [("href", "logo.png")] 12 []) init
    = Ok tt init.
Proof.
  apply (C5_existing_path_never_flagged Site.env "/site/index.html" _
           "logo.png" (mkParseResult "" "" "logo.png" "" "" "")).
  - vm_compute. reflexivity.
  - vm_compute. reflexivity.
  - reflexivity.
  - vm_compute. reflexivity.
Defined.


(** ** The order of the input files *)

Lemma chain_complete {A} (f : A → trace) l :
  (chain f l).2 = None ↔ Forall (λ x, (f x).2 = None) l.
Proof.
  induction l as [|x l IH]; simpl.
  - split; [constructor|done].
  - destruct (f x) as [lines [e|]] eqn:Hf; simpl.
    + split; [done|]. intros H. apply Forall_cons_1 in H as [H _].
      by rewrite Hf in H.
    + rewrite IH. split.
      * intros H. constructor; [by rewrite Hf|done].
      * by intros [_ H]%Forall_cons_1.
Qed.

Lemma chain_lines {A} (f : A → trace) l :
  (chain f l).2 = None → (chain f l).1 = flat_map (λ x, (f x).1) l.
Proof.
  induction l as [|x l IH]; simpl; [done|].
  destruct (f x) as [lines [e|]]; simpl; [done|].
  intros H. by rewrite IH.
Qed.


(** What a run that completes has printed: the diagnostics of the
    collection pass, then file by file what the validation pass prints
    against the anchors of all files. *)
Lemma ProcessPaths_stdout env paths :
  let known := all_anchors env paths in
  completes (ProcessPaths env paths init) →
  stdout (final (ProcessPaths env paths init))
  = flat_map (parse_diag env) paths
    ++ flat_map (λ p, (file_trace env known p).1) paths.
Proof.
  intros known. rewrite ProcessPaths_spec.
  rewrite completes_finish, stdout_finish. simpl.
  replace (∅ ∪ all_anchors env paths) with known by set_solver.
  intros Hdone. by rewrite chain_lines.
Qed.

Lemma ProcessPaths_completes env paths :
  completes (ProcessPaths env paths init)
  ↔ Forall (λ p, (file_trace env (all_anchors env paths) p).2 = None) paths.
Proof.
  rewrite ProcessPaths_spec, completes_finish. simpl.
  replace (∅ ∪ all_anchors env paths) with (all_anchors env paths)
    by set_solver.
  apply chain_complete.
Qed.

(** ** A file that [etree.parse] refuses *)

Lemma append_inj_dq a b : a +:+ dq = b +:+ dq → a = b.
Proof.
  revert b. induction a as [|x a IH]; intros [|y b] H.
  - done.
  - rewrite append_nil_l, append_cons in H. unfold dq in H.
    injection H as _ H. symmetry in H. by apply append_eq_nil in H as [_ ?].
  - rewrite append_nil_l, append_cons in H. unfold dq in H.
    injection H as _ H. by apply append_eq_nil in H as [_ ?].
  - rewrite !append_cons in H. injection H as -> H. f_equal. by apply IH.
Qed.

Lemma unable_to_parse_inj p q : unable_to_parse p = unable_to_parse q → p = q.
Proof.
  unfold unable_to_parse. intros H.
  apply (inj (String.app _)) in H. apply (inj (String.app _)) in H.
  by apply append_inj_dq.
Qed.

Lemma line1_not_unable path elt p :
  broken_link_line1 path elt ≠ unable_to_parse p.
Proof.
  unfold broken_link_line1, unable_to_parse. rewrite !append_cons.
  discriminate.
Qed.

Lemma line2_not_unable href p : broken_link_line2 href ≠ unable_to_parse p.
Proof.
  unfold broken_link_line2, unable_to_parse. rewrite !append_cons.
  discriminate.
Qed.

Lemma chain_Forall {A} (P : string → Prop) (f : A → trace) l :
  (∀ x, Forall P (f x).1) → Forall P (chain f l).1.
Proof.
  intros Hf. induction l as [|x l IH]; simpl; [constructor|].
  pose proof (Hf x) as Hx. destruct (f x) as [lines [e|]]; simpl in *; [done|].
  by apply Forall_app.
Qed.

Lemma link_trace_not_unable env known path elt p :
  Forall (λ l, l ≠ unable_to_parse p) (link_trace env known path elt).1.
Proof.
  unfold link_trace. repeat case_match; simpl; try constructor.
  - apply line1_not_unable.
  - constructor; [apply line2_not_unable|constructor].
Qed.

Lemma parse_diag_not_unable env q p :
  q ≠ p → Forall (λ l, l ≠ unable_to_parse p) (parse_diag env q).
Proof.
  intros Hq. unfold parse_diag. destruct (lxml_parse env q) as [|root].
  - constructor; [|constructor].
    intros H. by apply unable_to_parse_inj in H.
  - constructor.
Qed.

Lemma file_trace_not_unable env known q p :
  q ≠ p → Forall (λ l, l ≠ unable_to_parse p) (file_trace env known q).1.
Proof.
  intros Hq. unfold file_trace. destruct (etree_parse env q) as [root|].
  - apply chain_Forall. intros. apply link_trace_not_unable.
  - simpl. by apply parse_diag_not_unable.
Qed.

Lemma filter_all (P : string → Prop) `{∀ x, Decision (P x)} l :
  Forall P l → filter P l = l.
Proof.
  induction 1 as [|x l Hx _ IH]; [done|].
  by rewrite filter_cons_True, IH.
Qed.

Lemma filter_none (P : string → Prop) `{∀ x, Decision (P x)} l :
  Forall (λ x, ¬ P x) l → filter P l = [].
Proof.
  induction 1 as [|x l Hx _ IH]; [done|].
  by rewrite filter_cons_False, IH.
Qed.

(** Among blocks of lines of which the block of [p] is the one line [msg]
    and no other block has [msg]. *)
Section Blocks.
Context (f : string → list string) (msg p : string).
Hypothesis (Hp : f p = [msg]).
Hypothesis (Hother : ∀ q, q ≠ p → Forall (λ l, l ≠ msg) (f q)).

Lemma blocks_without l :
  filter (λ l, l ≠ msg) (flat_map f l) = flat_map f (filter (λ q, q ≠ p) l).
Proof.
  induction l as [|q l IH]; [done|]. simpl. rewrite filter_app, IH.
  destruct (decide (q = p)) as [->|Hq].
  - rewrite Hp, filter_cons_False by naive_solver.
    by rewrite (filter_cons_False _ p) by naive_solver.
  - rewrite filter_all by auto. by rewrite (filter_cons_True _ q).
Qed.

Lemma blocks_count l : count_line msg (flat_map f l) = count_line p l.
Proof.
  unfold count_line. induction l as [|q l IH]; [done|]. simpl.
  rewrite filter_app, length_app, IH.
  destruct (decide (q = p)) as [->|Hq].
  - by rewrite Hp, (filter_cons_True _ msg), (filter_cons_True _ p).
  - rewrite filter_none, (filter_cons_False _ q); [done..|].
    eapply Forall_impl; [by apply Hother|]. naive_solver.
Qed.

End Blocks.

Lemma chain_without (f : string → trace) (msg p : string) l :
  f p = ([msg], None) →
  (∀ q, q ≠ p → Forall (λ l, l ≠ msg) (f q).1) →
  chain f (filter (λ q, q ≠ p) l)
  = (filter (λ l, l ≠ msg) (chain f l).1, (chain f l).2).
Proof.
  intros Hp Hother. induction l as [|q l IH]; [done|].
  destruct (decide (q = p)) as [->|Hq].
  - rewrite filter_cons_False by naive_solver. simpl. rewrite Hp. simpl.
    by rewrite filter_cons_False by naive_solver.
  - rewrite filter_cons_True by done. simpl.
    pose proof (Hother q Hq) as Hlines.
    destruct (f q) as [lines [e|]]; simpl in *.
    + by rewrite filter_all.
    + rewrite IH. simpl. by rewrite filter_app, (filter_all _ lines).
Qed.

Lemma chain_count (f : string → trace) (msg p : string) l :
  f p = ([msg], None) →
  (∀ q, q ≠ p → Forall (λ l, l ≠ msg) (f q).1) →
  (chain f l).2 = None →
  count_line msg (chain f l).1 = count_line p l.
Proof.
  intros Hp Hother Hdone. rewrite chain_lines by done.
  apply blocks_count; [by rewrite Hp|done].
Qed.

Lemma all_anchors_without env p paths :
  etree_parse env p = None →
  all_anchors env (filter (λ q, q ≠ p) paths) = all_anchors env paths.
Proof.
  intros Hp. unfold all_anchors.
  induction paths as [|q paths IH]; [done|].
  destruct (decide (q = p)) as [->|Hq].
  - rewrite filter_cons_False by naive_solver. rewrite IH. simpl.
    unfold file_anchors at 2. rewrite Hp. set_solver.
  - rewrite filter_cons_True by done. csimpl. by rewrite IH.
Qed.

Lemma flat_map_skip (f : string → list string) (q : string) l :
  f q = [] → flat_map f (filter (λ x, x ≠ q) l) = flat_map f l.
Proof.
  intros Hq. induction l as [|x l IH]; [done|].
  destruct (decide (x = q)) as [->|Hx].
  - rewrite filter_cons_False by naive_solver. simpl. by rewrite Hq, IH.
  - rewrite filter_cons_True by done. simpl. by rewrite IH.
Qed.

Lemma chain_skip (f : string → trace) (q : string) l :
  f q = ([], None) → chain f (filter (λ x, x ≠ q) l) = chain f l.
Proof.
  intros Hq. induction l as [|x l IH]; [done|].
  destruct (decide (x = q)) as [->|Hx].
  - rewrite filter_cons_False by naive_solver. simpl. rewrite Hq, IH.
    by destruct (chain f l).
  - rewrite filter_cons_True by done. simpl. by rewrite IH.
Qed.

Lemma etree_parse_raises env p :
  lxml_parse env p = ParseRaises → etree_parse env p = None.
Proof. unfold etree_parse. by intros ->. Qed.

Lemma etree_parse_rootless env p :
  lxml_parse env p = ParseTree None → etree_parse env p = None.
Proof. unfold etree_parse. by intros ->. Qed.

(** C1, as the program does it: a file on which [etree.parse] raises gets
    the diagnostic once from each pass, hence twice for each time it is in
    the list when the run completes.  Each pass goes on to the next file
    with the anchor set as it was; dropping the file's diagnostics from what
    the run prints gives what the run over the other files prints, with the
    same anchor set, and one completes exactly when the other does.  A file
    that lxml reads as a tree without a root (an empty file) gets no
    diagnostic: both passes leave the state as it was, and the run is the
    run over the other files. *)
Theorem C1_unparsable_file env paths p :
  lxml_parse env p = ParseRaises →
  let msg := unable_to_parse p in
  let r := ProcessPaths env paths init in
  let r' := ProcessPaths env (filter (λ q, q ≠ p) paths) init in
  (∀ s, _CollectAnchors env p s
        = Ok tt (mkState (anchors s) (stdout s ++ [msg])))
  ∧ (∀ s, _FindBrokenLinks env p s
          = Ok tt (mkState (anchors s) (stdout s ++ [msg])))
  ∧ anchors (final r') = anchors (final r)
  ∧ stdout (final r') = filter (λ l, l ≠ msg) (stdout (final r))
  ∧ (completes r' ↔ completes r)
  ∧ (completes r → count_line msg (stdout (final r)) = 2 * count_line p paths)
  ∧ (∀ q, lxml_parse env q = ParseTree None →
          (∀ s, _CollectAnchors env q s = Ok tt s)
          ∧ (∀ s, _FindBrokenLinks env q s = Ok tt s)
          ∧ ProcessPaths env (filter (λ x, x ≠ q) paths) init
            = ProcessPaths env paths init).
Proof.
  intros Hraises msg r r'.
  pose proof (etree_parse_raises env p Hraises) as Hp.
  assert (parse_diag env p = [msg]) as Hdiag.
  { unfold parse_diag. by rewrite Hraises. }
  assert (∀ known, file_trace env known p = ([msg], None)) as Htrace.
  { intros known. unfold file_trace. by rewrite Hp, Hdiag. }
  split; [|split].
  { intros s. rewrite _CollectAnchors_spec, Hdiag. unfold file_anchors.
    rewrite Hp. f_equal. f_equal. set_solver. }
  { intros s. by rewrite _FindBrokenLinks_spec, Htrace. }
  unfold r, r'. rewrite !ProcessPaths_spec. simpl.
  rewrite !anchors_finish, !stdout_finish, !completes_finish. simpl.
  rewrite (all_anchors_without env p paths Hp).
  set (known := ∅ ∪ all_anchors env paths).
  rewrite (chain_without _ msg p paths (Htrace known))
    by (intros; by apply file_trace_not_unable).
  simpl. split; [done|]. split; [|split; [done|split]].
  - rewrite filter_app. f_equal. symmetry.
    apply blocks_without; [done|]. intros. by apply parse_diag_not_unable.
  - intros Hdone. unfold count_line at 1.
    rewrite filter_app, length_app.
    fold (count_line msg (flat_map (parse_diag env) paths)).
    fold (count_line msg (chain (file_trace env known) paths).1).
    rewrite (blocks_count _ msg p Hdiag)
      by (intros; by apply parse_diag_not_unable).
    rewrite (chain_count _ msg p paths (Htrace known)); [lia| |done].
    intros. by apply file_trace_not_unable.
  - intros q Hrootless.
    pose proof (etree_parse_rootless env q Hrootless) as Hq.
    assert (parse_diag env q = []) as Hnone.
    { unfold parse_diag. by rewrite Hrootless. }
    assert (∀ known, file_trace env known q = ([], None)) as Hsilent.
    { intros known'. unfold file_trace. by rewrite Hq, Hnone. }
    split; [|split].
    + intros s. rewrite _CollectAnchors_spec, Hnone. unfold file_anchors.
      rewrite Hq. destruct s as [A out]. simpl. rewrite app_nil_r.
      f_equal. f_equal. set_solver.
    + intros s. rewrite _FindBrokenLinks_spec, Hsilent. apply finish_nil.
    + rewrite !ProcessPaths_spec. simpl.
      rewrite (all_anchors_without env q paths Hq).
      by rewrite (flat_map_skip _ q paths Hnone),
        (chain_skip _ q paths (Hsilent _)).
Qed.

Lemma C1_unparsable_file_witness :
  lxml_parse Site.env "/site/bad.html" = ParseRaises
  ∧ count_line (unable_to_parse "/site/bad.html")
      (stdout (final (ProcessPaths Site.env
                        ["/site/a.html"; "/site/bad.html"] init)))
    = 2 * count_line "/site/bad.html" ["/site/a.html"; "/site/bad.html"].
Proof.
  split; [vm_compute; reflexivity|].
  apply (C1_unparsable_file Site.env ["/site/a.html"; "/site/bad.html"]
           "/site/bad.html").
  - vm_compute. reflexivity.
  - vm_compute. exact I.
Defined.

(** C1 as it is stated fails.  [gone.html], named on the command line, is
    not in the file system, and [/site/bad.html] cannot be read:
    [etree.parse] raises on both, each run completes, and the diagnostic is
    printed twice, not once.  [/site/empty.html] is empty: lxml gives a tree
    without a root, and the run prints no diagnostic at all. *)
Lemma C1_counterexample :
  (lxml_parse Site.env "/site/gone.html" = ParseRaises
   ∧ completes (main Site.env ["gone.html"] init)
   ∧ stdout (final (main Site.env ["gone.html"] init))
     = [unable_to_parse "/site/gone.html"; unable_to_parse "/site/gone.html"]
   ∧ count_line (unable_to_parse "/site/gone.html")
       (stdout (final (main Site.env ["gone.html"] init))) ≠ 1)
  ∧ (lxml_parse Site.env "/site/bad.html" = ParseRaises
     ∧ completes (ProcessPaths Site.env ["/site/bad.html"] init)
     ∧ stdout (final (ProcessPaths Site.env ["/site/bad.html"] init))
       = [unable_to_parse "/site/bad.html"; unable_to_parse "/site/bad.html"]
     ∧ count_line (unable_to_parse "/site/bad.html")
         (stdout (final (ProcessPaths Site.env ["/site/bad.html"] init))) ≠ 1)
  ∧ (lxml_parse Site.env "/site/empty.html" = ParseTree None
     ∧ completes (ProcessPaths Site.env ["/site/empty.html"] init)
     ∧ stdout (final (ProcessPaths Site.env ["/site/empty.html"] init)) = []
     ∧ count_line (unable_to_parse "/site/empty.html")
         (stdout (final (ProcessPaths Site.env ["/site/empty.html"] init)))
       ≠ 1).
Proof.
  repeat split; try (vm_compute; reflexivity); try (vm_compute; exact I);
    vm_compute; discriminate.
Qed.

(** ** Which elements the validation pass looks at *)

Lemma element_ind' (P : element → Prop) :
  (∀ t a l cs, Forall P cs → P (Element t a l cs)) → ∀ e, P e.
Proof.
  intros H. fix IH 1. intros [t a l cs]. apply H.
  induction cs as [|c cs IHcs]; constructor; [apply IH|apply IHcs].
Qed.

Lemma iter_unfold e : iter e = e :: flat_map iter (children e).
Proof.
  destruct e as [t a l cs]. simpl. f_equal.
Qed.

Lemma flat_map_iter_only_a_href cs :
  Forall (λ c, iter (only_a_href c) = List.map only_a_href (iter c)) cs →
  flat_map iter (List.map only_a_href cs)
  = List.map only_a_href (flat_map iter cs).
Proof.
  induction 1 as [|c cs Hc _ IH]; [done|].
  simpl. by rewrite Hc, IH, List.map_app.
Qed.

Lemma iter_only_a_href e :
  iter (only_a_href e) = List.map only_a_href (iter e).
Proof.
  induction e as [t a l cs IH] using element_ind'.
  rewrite (iter_unfold (Element t a l cs)), iter_unfold. simpl.
  f_equal. by apply flat_map_iter_only_a_href.
Qed.

Lemma iterdescendants_only_a_href root :
  iterdescendants (only_a_href root)
  = List.map only_a_href (iterdescendants root).
Proof.
  unfold iterdescendants. destruct root as [t a l cs]. simpl.
  apply flat_map_iter_only_a_href, Forall_forall.
  intros. apply iter_only_a_href.
Qed.

Lemma tag_only_a_href e : tag (only_a_href e) = tag e.
Proof. by destruct e. Qed.

Lemma sourceline_only_a_href e : sourceline (only_a_href e) = sourceline e.
Proof. by destruct e. Qed.

Lemma href_only_a_href e :
  tag e = "a" → attrib (only_a_href e) !! "href" = attrib e !! "href".
Proof.
  destruct e as [t a l cs]. simpl. intros ->.
  rewrite bool_decide_eq_true_2 by done.
  apply option_eq. intros v. rewrite map_lookup_filter_Some. naive_solver.
Qed.

Lemma selects_only_a_href e :
  selects (Some "a") "href" (only_a_href e) = selects (Some "a") "href" e.
Proof.
  unfold selects. rewrite tag_only_a_href.
  case_bool_decide as Htag; [|done]. simpl. by rewrite href_only_a_href.
Qed.

Lemma filter_map_comm {A B} (f : B → bool) (g : A → B) l :
  List.filter f (List.map g l) = List.map g (List.filter (λ x, f (g x)) l).
Proof.
  induction l as [|x l IH]; [done|]. simpl.
  destruct (f (g x)); simpl; by rewrite IH.
Qed.

Lemma findall_only_a_href root :
  findall (Some "a") "href" (only_a_href root)
  = List.map only_a_href (findall (Some "a") "href" root).
Proof.
  unfold findall. rewrite iterdescendants_only_a_href, filter_map_comm.
  f_equal. apply filter_ext. intros e. apply selects_only_a_href.
Qed.

Lemma chain_map {A B} (f : B → trace) (g : A → B) l :
  chain f (List.map g l) = chain (λ x, f (g x)) l.
Proof.
  induction l as [|x l IH]; [done|]. simpl. by rewrite IH.
Qed.

Lemma chain_ext {A} (f g : A → trace) l :
  Forall (λ x, f x = g x) l → chain f l = chain g l.
Proof.
  induction 1 as [|x l Hx _ IH]; [done|]. simpl. by rewrite Hx, IH.
Qed.

Lemma link_trace_only_a_href env path' root' known path e :
  tag e = "a" →
  link_trace (with_document env path' root') known path (only_a_href e)
  = link_trace env known path e.
Proof.
  intros Htag. unfold link_trace, broken_link_line1.
  by rewrite href_only_a_href, sourceline_only_a_href.
Qed.

(** C10: the elements whose link is checked are [<a>] elements with an
    [href], and nothing else of the document counts: the validation of a
    file prints and returns the same when every attribute but the [href] of
    the [<a>] elements is taken out of its document, the [href] of other
    elements and every [src] among them. *)
Theorem C10_only_a_href_is_checked env path root s :
  etree_parse env path = Some root →
  (∀ e, e ∈ findall (Some "a") "href" root →
        tag e = "a" ∧ is_Some (attrib e !! "href"))
  ∧ _FindBrokenLinks (with_document env path (only_a_href root)) path s
    = _FindBrokenLinks env path s.
Proof.
  intros Hroot. split.
  - intros e He. split.
    + by eapply Forall_forall in He; [|apply findall_tag].
    + by eapply Forall_forall in He; [|apply findall_key].
  - rewrite !_FindBrokenLinks_spec. f_equal. unfold file_trace.
    rewrite Hroot.
    assert (etree_parse (with_document env path (only_a_href root)) path
            = Some (only_a_href root)) as ->.
    { unfold etree_parse. simpl. by rewrite bool_decide_eq_true_2. }
    rewrite findall_only_a_href, chain_map. apply chain_ext.
    eapply Forall_impl; [apply (findall_tag "a")|].
    intros e He. by apply link_trace_only_a_href.
Qed.

Lemma C10_only_a_href_is_checked_witness :
  _FindBrokenLinks
    (with_document Site.env "/site/index.html" (only_a_href Site.index_html))
    "/site/index.html" init
  = _FindBrokenLinks Site.env "/site/index.html" init.
Proof.
  apply (C10_only_a_href_is_checked Site.env "/site/index.html"
           Site.index_html init).
  vm_compute. reflexivity.
Defined.

(** ** The list of files to process *)

Lemma foldl_app_flat_map {A B} (f : A → list B) l acc :
  foldl (λ acc x, acc ++ f x) acc l = acc ++ flat_map f l.
Proof.
  revert acc. induction l as [|x l IH]; intros acc; simpl.
  - by rewrite app_nil_r.
  - by rewrite IH, <-(assoc_L (++)).
Qed.

Lemma foldl_pointwise {A B} (f g : B → A → B) l acc :
  (∀ acc x, f acc x = g acc x) → foldl f acc l = foldl g acc l.
Proof.
  intros Hfg. revert acc. induction l as [|x l IH]; intros acc; [done|].
  simpl. by rewrite Hfg, IH.
Qed.

Lemma _GetPathsForDir_flat_map env directory :
  _GetPathsForDir env directory
  = flat_map (paths_in env) (walk env directory).
Proof.
  unfold _GetPathsForDir.
  rewrite (foldl_pointwise _ (λ acc x, acc ++ paths_in env x)).
  - by rewrite foldl_app_flat_map.
  - intros acc [[root dirnames] filenames]. unfold paths_in, matching.
    by rewrite foldl_app_flat_map.
Qed.

Lemma GetFilePaths_flat_map env inputs :
  GetFilePaths env inputs = sorted (flat_map (paths_of env) inputs).
Proof.
  unfold GetFilePaths. f_equal.
  rewrite (foldl_pointwise _ (λ acc x, acc ++ paths_of env x)).
  - by rewrite foldl_app_flat_map.
  - intros acc x. unfold paths_of. by destruct (isdir env x).
Qed.

Lemma sorted_perm l : sorted l ≡ₚ l.
Proof. apply merge_sort_Permutation. Qed.

(** Every path [GetFilePaths] returns is a value of [realpath]. *)
Lemma GetFilePaths_realpath env inputs p :
  p ∈ GetFilePaths env inputs → ∃ q, p = realpath env q.
Proof.
  rewrite GetFilePaths_flat_map, sorted_perm.
  intros (x & _ & Hp)%list_elem_of_In%in_flat_map.
  unfold paths_of in Hp. destruct (isdir env x).
  - rewrite _GetPathsForDir_flat_map in Hp.
    apply in_flat_map in Hp as ([[root dirnames] filenames] & _ & Hp).
    unfold paths_in in Hp. apply in_map_iff in Hp as (fn & <- & _). eauto.
  - destruct Hp as [<-|[]]. eauto.
Qed.

Lemma elem_of_file_anchors env path a :
  a ∈ file_anchors env path → ∃ name, a = path +:+ ":" +:+ name.
Proof.
  unfold file_anchors. destruct (etree_parse env path) as [root|]; [|set_solver].
  rewrite !elem_of_union, elem_of_singleton, !elem_of_list_to_set,
    !list_elem_of_fmap.
  intros [[->|(e & -> & _)]|(e & -> & _)]; unfold anchor_of; eauto.
Qed.

Lemma elem_of_all_anchors env paths a :
  a ∈ all_anchors env paths ↔ ∃ p, p ∈ paths ∧ a ∈ file_anchors env p.
Proof.
  unfold all_anchors. rewrite elem_of_union_list.
  setoid_rewrite list_elem_of_fmap. naive_solver.
Qed.

(** ** The paths in the anchors *)

Section Targets.
Context (env : Env).

Lemma _GetAnchor_internal path href url :
  urlparse env href = Some url →
  url_scheme url = "" →
  let rp := ref_path_of env path url in
  _GetAnchor env path href
  = if negb (Str.truthy (url_fragment url)) then
      if path_exists env rp then Some ""
      else Some (rp +:+ ":" +:+ url_fragment url)
    else if isdir env rp
         then Some ((rp +:+ "/index.html") +:+ ":" +:+ url_fragment url)
         else Some (rp +:+ ":" +:+ url_fragment url).
Proof.
  intros Hurl Hscheme. unfold _GetAnchor. rewrite Hurl. simpl.
  apply truthy_false in Hscheme as ->.
  destruct (negb (Str.truthy (url_fragment url))); [done|].
  by destruct (isdir env _).
Qed.

Lemma ref_path_relative path url :
  url_path url ≠ "" →
  posixpath.isabs (url_path url) = false →
  ref_path_of env path url
  = realpath env
      (posixpath.normpath
         (posixpath.join (posixpath.dirname path) (url_path url))).
Proof.
  intros Hpath Hrel. unfold ref_path_of.
  apply truthy_true in Hpath as ->. by rewrite Hrel.
Qed.

(** C2, as the program does it: the anchors of a run of [main] carry the
    path of a processed file, which is a value of [realpath]; a target
    built from an href carries the path the link refers to, with
    [/index.html] after it for a directory and a fragment: the source path
    as it is for an href without a path, the URL's path as it is when that
    path is absolute, and the [realpath] of the normalized join when it is
    relative; so two relative references with the same fragment whose
    joined paths have the same [realpath] get the same target. *)
Theorem C2_target_paths :
  (∀ inputs a,
     a ∈ anchors (final (main env inputs init)) →
     ∃ q name, a = realpath env q +:+ ":" +:+ name)
  ∧ (∀ path href url anchor,
       urlparse env href = Some url →
       _GetAnchor env path href = Some anchor →
       anchor ≠ "" →
       let rp := ref_path_of env path url in
       (anchor = rp +:+ ":" +:+ url_fragment url
        ∨ (isdir env rp = true ∧ url_fragment url ≠ ""
           ∧ anchor = (rp +:+ "/index.html") +:+ ":" +:+ url_fragment url))
       ∧ (url_path url = "" → rp = path)
       ∧ (url_path url ≠ "" → posixpath.isabs (url_path url) = true →
          rp = url_path url)
       ∧ (url_path url ≠ "" → posixpath.isabs (url_path url) = false →
          rp = realpath env
                 (posixpath.normpath
                    (posixpath.join (posixpath.dirname path) (url_path url)))))
  ∧ (∀ path1 href1 url1 path2 href2 url2,
       urlparse env href1 = Some url1 →
       urlparse env href2 = Some url2 →
       url_scheme url1 = "" → url_scheme url2 = "" →
       url_path url1 ≠ "" → url_path url2 ≠ "" →
       posixpath.isabs (url_path url1) = false →
       posixpath.isabs (url_path url2) = false →
       realpath env
         (posixpath.normpath
            (posixpath.join (posixpath.dirname path1) (url_path url1)))
       = realpath env
           (posixpath.normpath
              (posixpath.join (posixpath.dirname path2) (url_path url2))) →
       url_fragment url1 = url_fragment url2 →
       _GetAnchor env path1 href1 = _GetAnchor env path2 href2).
Proof.
  split; [|split].
  - intros inputs a. unfold main. rewrite ProcessPaths_spec, anchors_finish.
    simpl. rewrite elem_of_union, elem_of_all_anchors.
    intros [Ha|(p & Hp & Ha)]; [set_solver|].
    apply GetFilePaths_realpath in Hp as [q ->].
    apply elem_of_file_anchors in Ha as [name ->]. eauto.
  - intros path href url anchor Hurl Hanchor Hne rp.
    split; [|split; [|split]].
    + unfold _GetAnchor in Hanchor. rewrite Hurl in Hanchor. simpl in Hanchor.
      destruct (Str.truthy (url_scheme url)); [naive_solver|].
      fold rp in Hanchor.
      destruct (Str.truthy (url_fragment url)) eqn:Hfrag; simpl in Hanchor.
      * destruct (isdir env rp) eqn:Hdir; [|naive_solver].
        right. apply truthy_true in Hfrag. naive_solver.
      * destruct (path_exists env rp); naive_solver.
    + intros Hpath. unfold rp, ref_path_of.
      by apply truthy_false in Hpath as ->.
    + intros Hpath Habs. unfold rp, ref_path_of.
      apply truthy_true in Hpath as ->. by rewrite Habs.
    + intros. by apply ref_path_relative.
  - intros path1 href1 url1 path2 href2 url2 Hurl1 Hurl2 Hs1 Hs2 Hp1 Hp2
      Hrel1 Hrel2 Hsame Hfrag.
    rewrite (_GetAnchor_internal path1 href1 url1),
      (_GetAnchor_internal path2 href2 url2) by done.
    rewrite !ref_path_relative by done. by rewrite Hsame, Hfrag.
Qed.

(** An [id] below the root: when the anchors of the processed files are in
    the set, a link to [F#x] whose path resolves to the processed file [F]
    is not reported if an element under the root of [F] has [id="x"]. *)
Lemma id_below_root_resolves paths F root e x path elt href url s :
  F ∈ paths →
  etree_parse env F = Some root →
  e ∈ iterdescendants root →
  attrib e !! "id" = Some x →
  attrib elt !! "href" = Some href →
  urlparse env href = Some url →
  url_scheme url = "" →
  url_fragment url = x →
  ref_path_of env path url = F →
  isdir env F = false →
  all_anchors env paths ⊆ anchors s →
  check_link env path elt s = Ok tt s.
Proof.
  intros HF Hroot He Hid Hhref Hurl Hscheme Hfrag Hrp Hdir Hknown.
  assert (F +:+ ":" +:+ x ∈ anchors s) as Hin.
  { apply Hknown, elem_of_all_anchors. exists F. split; [done|].
    unfold file_anchors. rewrite Hroot.
    apply elem_of_union_r, elem_of_list_to_set, list_elem_of_fmap.
    exists e. split; [unfold anchor_of; by rewrite Hid|].
    apply list_elem_of_In, filter_In. split; [by apply list_elem_of_In|].
    unfold selects. simpl. apply bool_decide_eq_true. by rewrite Hid. }
  rewrite check_link_spec. unfold link_trace. rewrite Hhref.
  rewrite (_GetAnchor_internal path href url) by done.
  rewrite Hrp, Hdir, Hfrag.
  destruct (negb (Str.truthy x)); [destruct (path_exists env F)|];
    rewrite ?anchor_truthy; simpl;
    rewrite ?(bool_decide_eq_true_2 _ Hin); simpl; apply finish_nil.
Qed.

End Targets.

Lemma C2_target_paths_witness :
  _GetAnchor Site.env "/site/a.html" "index.html#intro"
  = _GetAnchor Site.env "/site/docs/index.html" "../index.html#intro".
Proof.
  apply (proj2 (proj2 (C2_target_paths Site.env)) _ _
           (mkParseResult "" "" "index.html" "" "" "intro") _ _
           (mkParseResult "" "" "../index.html" "" "" "intro"));
    try (vm_compute; reflexivity); simpl; discriminate.
Defined.

(** C2 as it is stated fails: the two hrefs below, in [/site/a.html], name
    the same file with the same fragment; the path of the first target is
    not normalized, the two targets differ, and only the second is an
    anchor of the run. *)
Lemma C2_counterexample :
  realpath Site.env "/site/./index.html" = realpath Site.env "/site/index.html"
  ∧ _GetAnchor Site.env "/site/a.html" "/site/./index.html#title"
    = Some "/site/./index.html:title"
  ∧ _GetAnchor Site.env "/site/a.html" "/site/index.html#title"
    = Some "/site/index.html:title"
  ∧ realpath Site.env "/site/./index.html" ≠ "/site/./index.html"
  ∧ bool_decide ("/site/./index.html:title"
                 ∈ anchors (final (main Site.env ["/site"] init))) = false
  ∧ bool_decide ("/site/index.html:title"
                 ∈ anchors (final (main Site.env ["/site"] init))) = true.
Proof.
  repeat split; try (vm_compute; reflexivity). vm_compute. discriminate.
Qed.

(** ** An [id] on the root element *)

(** C3 at [/site/index.html], whose root is [<html id="top">] and which has
    [<a href="#top">] on line 8: the file is processed and parses, the link
    resolves to the target ["/site/index.html:top"], the collection has not
    put that target in the set ([.//*[@id]] selects below the root only),
    and the run reports the link. *)
Theorem C3_id_on_root_element :
  "/site/index.html" ∈ GetFilePaths Site.env ["/site"]
  ∧ etree_parse Site.env "/site/index.html" = Some Site.index_html
  ∧ attrib Site.index_html !! "id" = Some "top"
  ∧ findall (Some "a") "href" Site.index_html !! 1
    = Some (Site.elt "a" [("href", "#top")] 8 [])
  ∧ _GetAnchor Site.env "/site/index.html" "#top"
    = Some "/site/index.html:top"
  ∧ bool_decide ("/site/index.html:top"
                 ∈ anchors (final (main Site.env ["/site"] init))) = false
  ∧ stdout (final (main Site.env ["/site"] init))
    = ["*** Unable to parse HTML from " +:+ dq +:+ "/site/bad.html" +:+ dq;
       "*** Line 6 in " +:+ dq +:+ "/site/a.html" +:+ dq +:+ ":";
       "***     Broken link to " +:+ dq +:+ "/site/./index.html#title" +:+ dq;
       "*** Unable to parse HTML from " +:+ dq +:+ "/site/bad.html" +:+ dq;
       "*** Line 8 in " +:+ dq +:+ "/site/index.html" +:+ dq +:+ ":";
       "***     Broken link to " +:+ dq +:+ "#top" +:+ dq;
       "*** Line 11 in " +:+ dq +:+ "/site/index.html" +:+ dq +:+ ":";
       "***     Broken link to " +:+ dq +:+ "docs#nope" +:+ dq].
Proof.
  split.
  - apply (bool_decide_unpack _). vm_compute. exact I.
  - repeat split; vm_compute; reflexivity.
Qed.

(** ** Two runs over the same files *)

Lemma sorted_unique l1 l2 : l1 ≡ₚ l2 → sorted l1 = sorted l2.
Proof.
  intros Hperm. unfold sorted.
  apply (Sorted_unique String.le); [apply Sorted_merge_sort; apply _..|].
  by rewrite !merge_sort_Permutation.
Qed.

Lemma filter_flat_map {A} (f : A → bool) l :
  List.filter f l = flat_map (λ x, if f x then [x] else []) l.
Proof.
  induction l as [|x l IH]; [done|]. simpl. rewrite IH. by destruct (f x).
Qed.

Lemma flat_map_app_perm {A B} (f g : A → list B) l :
  flat_map (λ x, f x ++ g x) l ≡ₚ flat_map f l ++ flat_map g l.
Proof.
  induction l as [|x l IH]; [done|]. simpl. rewrite IH.
  rewrite <-!(assoc_L (++)). apply Permutation_app_head.
  rewrite !(assoc_L (++)). apply Permutation_app_tail, Permutation_app_comm.
Qed.

Lemma flat_map_const_nil {A B} (l : list A) :
  flat_map (λ _, @nil B) l = [].
Proof. by induction l. Qed.

(** A file name, once for each pattern it matches. *)
Lemma matching_by_name filenames :
  matching filenames
  ≡ₚ flat_map (λ fn, flat_map (λ pat, if fnmatch pat fn then [fn] else [])
                              FILE_PATTERNS) filenames.
Proof.
  unfold matching. induction FILE_PATTERNS as [|pat pats IH]; simpl.
  - by rewrite flat_map_const_nil.
  - rewrite flat_map_app_perm, IH. apply Permutation_app_tail.
    unfold fnfilter. by rewrite filter_flat_map.
Qed.

Lemma map_flat_map {A B C} (g : B → C) (f : A → list B) l :
  List.map g (flat_map f l) = flat_map (λ x, List.map g (f x)) l.
Proof.
  induction l as [|x l IH]; [done|]. simpl. by rewrite List.map_app, IH.
Qed.

Lemma flat_map_map {A B C} (f : B → list C) (g : A → B) l :
  flat_map f (List.map g l) = flat_map (λ x, f (g x)) l.
Proof. induction l as [|x l IH]; [done|]. simpl. by rewrite IH. Qed.

Lemma _GetPathsForDir_listing env directory :
  _GetPathsForDir env directory ≡ₚ flat_map (hits env) (listing env directory).
Proof.
  rewrite _GetPathsForDir_flat_map. unfold listing.
  induction (walk env directory) as [|[[root dirnames] filenames] w IH];
    [done|].
  simpl. rewrite flat_map_app, IH. apply Permutation_app_tail.
  rewrite matching_by_name, map_flat_map.
  change (pair root <$> filenames) with (List.map (pair root) filenames).
  by rewrite flat_map_map.
Qed.

Section SameFiles.
Context (e1 e2 : Env) (Hsame : same_files e1 e2).

Lemma same_GetPathsForDir directory :
  _GetPathsForDir e1 directory ≡ₚ _GetPathsForDir e2 directory.
Proof.
  rewrite !_GetPathsForDir_listing, (same_listing _ _ Hsame).
  erewrite flat_map_ext; [done|].
  intros [root fn]. unfold hits. apply map_ext. intros x.
  apply (same_realpath _ _ Hsame).
Qed.

Lemma same_GetFilePaths inputs : GetFilePaths e1 inputs = GetFilePaths e2 inputs.
Proof.
  rewrite !GetFilePaths_flat_map. apply sorted_unique.
  induction inputs as [|x inputs IH]; [done|]. simpl.
  apply Permutation_app; [|done]. unfold paths_of.
  rewrite (same_isdir _ _ Hsame), (same_realpath _ _ Hsame).
  destruct (isdir e2 x); [apply same_GetPathsForDir|done].
Qed.

Lemma same_GetAnchor path href : _GetAnchor e1 path href = _GetAnchor e2 path href.
Proof.
  unfold _GetAnchor, ref_path_of.
  rewrite (same_urlparse _ _ Hsame).
  destruct (urlparse e2 href) as [url|]; [|done]. simpl.
  rewrite (same_realpath _ _ Hsame), (same_exists _ _ Hsame),
    (same_isdir _ _ Hsame).
  done.
Qed.

Lemma same_etree_parse path : etree_parse e1 path = etree_parse e2 path.
Proof. unfold etree_parse. by rewrite (same_parse _ _ Hsame). Qed.

Lemma same_file_anchors path : file_anchors e1 path = file_anchors e2 path.
Proof. unfold file_anchors. by rewrite same_etree_parse. Qed.

Lemma same_parse_diag path : parse_diag e1 path = parse_diag e2 path.
Proof. unfold parse_diag. by rewrite (same_parse _ _ Hsame). Qed.

Lemma same_file_trace known path :
  file_trace e1 known path = file_trace e2 known path.
Proof.
  unfold file_trace. rewrite same_etree_parse, same_parse_diag.
  destruct (etree_parse e2 path) as [root|]; [|done].
  apply chain_ext, Forall_forall. intros elt _. unfold link_trace.
  destruct (attrib elt !! "href") as [href|]; [|done].
  by rewrite same_GetAnchor.
Qed.

Lemma same_ProcessPaths paths s : ProcessPaths e1 paths s = ProcessPaths e2 paths s.
Proof.
  rewrite !ProcessPaths_spec. simpl.
  assert (all_anchors e1 paths = all_anchors e2 paths) as ->.
  { unfold all_anchors. f_equal. apply list_fmap_ext.
    intros _ p _. apply same_file_anchors. }
  f_equal.
  - apply chain_ext, Forall_forall. intros p _. apply same_file_trace.
  - f_equal. f_equal. apply flat_map_ext. intros p. apply same_parse_diag.
Qed.

End SameFiles.

(** C9: two runs over the same files in the same state (the same answers
    from the file system, lxml and [urlparse], the same files listed by
    [os.walk], in whatever order) end the same way with the same anchor set
    and the same lines printed, so their standard outputs are the same
    bytes. *)
Theorem C9_same_output e1 e2 inputs :
  same_files e1 e2 →
  main e1 inputs init = main e2 inputs init
  ∧ stdout_bytes (final (main e1 inputs init))
    = stdout_bytes (final (main e2 inputs init)).
Proof.
  intros Hsame.
  assert (main e1 inputs init = main e2 inputs init) as Heq.
  { unfold main. rewrite (same_GetFilePaths e1 e2 Hsame).
    by apply same_ProcessPaths. }
  split; [done|]. by rewrite Heq.
Qed.

Lemma site_same_files : same_files Site.env Site.env'.
Proof.
  constructor; try done.
  intros d. unfold listing. simpl. unfold Site.walk, Site.walk'.
  repeat case_bool_decide; try done. simpl. solve_Permutation.
Qed.

Lemma C9_same_output_witness :
  stdout_bytes (final (main Site.env ["/site"] init))
  = stdout_bytes (final (main Site.env' ["/site"] init)).
Proof.
  apply (C9_same_output Site.env Site.env' ["/site"]).
  exact site_same_files.
Defined.


(** * Further properties of the code *)

(** ** What is in the anchor set *)

Lemma elem_of_file_anchors_iff env path a :
  a ∈ file_anchors env path
  ↔ ∃ root x, etree_parse env path = Some root ∧ defines root x
              ∧ a = path +:+ ":" +:+ x.
Proof.
  unfold file_anchors, defines.
  destruct (etree_parse env path) as [root|]; [|set_solver].
  rewrite !elem_of_union, elem_of_singleton, !elem_of_list_to_set,
    !list_elem_of_fmap.
  split.
  - intros [[->|(e & -> & He)]|(e & -> & He)].
    + exists root, "". naive_solver.
    + pose proof He as Hkey. eapply Forall_forall in Hkey; [|apply findall_key].
      destruct Hkey as [x Hx]. exists root, x. unfold anchor_of. rewrite Hx.
      naive_solver.
    + pose proof He as Hkey. eapply Forall_forall in Hkey; [|apply findall_key].
      destruct Hkey as [x Hx]. exists root, x. unfold anchor_of. rewrite Hx.
      naive_solver.
  - intros (root' & x & [= <-] & Hx & ->).
    destruct Hx as [->|[(e & He & Hx)|(e & He & Hx)]].
    + by left; left.
    + left; right. exists e. unfold anchor_of. by rewrite Hx.
    + right. exists e. unfold anchor_of. by rewrite Hx.
Qed.

(** X1: the anchor set at the end of a run holds exactly the strings
    ["p:x"] where [p] is an input file that parses to a document with a
    root and [x] is empty, the
    [name] of an [<a>] below its root, or the [id] of an element below its
    root; a file without such a document and a file that is not in the list
    put nothing in it. *)
Theorem anchor_set_exact env paths a :
  a ∈ anchors (final (ProcessPaths env paths init))
  ↔ ∃ p root x, p ∈ paths ∧ etree_parse env p = Some root ∧ defines root x
                ∧ a = p +:+ ":" +:+ x.
Proof.
  rewrite ProcessPaths_spec, anchors_finish. simpl.
  rewrite elem_of_union, elem_of_all_anchors.
  setoid_rewrite elem_of_file_anchors_iff. split.
  - intros [?|(p & Hp & root & x & ?)]; [set_solver|]. exists p, root, x.
    naive_solver.
  - intros (p & root & x & ?). right. exists p. naive_solver.
Qed.

(** ** Which links are reported *)

Section Reported.
Context (env : Env).

Lemma _GetAnchor_target path href url :
  urlparse env href = Some url →
  url_scheme url = "" →
  _GetAnchor env path href
  = if negb (Str.truthy (url_fragment url))
       && path_exists env (ref_path_of env path url)
    then Some ""
    else Some (target_path env path url +:+ ":" +:+ url_fragment url).
Proof.
  intros Hurl Hscheme. rewrite (_GetAnchor_internal env path href url) by done.
  unfold target_path. simpl.
  destruct (Str.truthy (url_fragment url)); simpl.
  - by destruct (isdir env _).
  - by destruct (path_exists env _).
Qed.

Lemma check_link_anchor path elt href anchor s :
  attrib elt !! "href" = Some href →
  _GetAnchor env path href = Some anchor →
  check_link env path elt s
  = Ok tt (mkState (anchors s)
             (stdout s ++
                if Str.truthy anchor && negb (bool_decide (anchor ∈ anchors s))
                then [broken_link_line1 path elt; broken_link_line2 href]
                else [])).
Proof.
  intros Hhref Hanchor. rewrite check_link_spec. unfold link_trace.
  rewrite Hhref, Hanchor. by destruct (Str.truthy anchor && _).
Qed.

(** Two anchors with colon-free paths are equal only if their paths and
    their element names are. *)
Lemma anchor_inj p1 x1 p2 x2 :
  colon_free p1 → colon_free p2 →
  p1 +:+ ":" +:+ x1 = p2 +:+ ":" +:+ x2 → p1 = p2 ∧ x1 = x2.
Proof.
  unfold colon_free. revert p2.
  induction p1 as [|c p1 IH]; intros [|d p2] H1 H2 Heq.
  - rewrite !append_nil_l, !append_cons, !append_nil_l in Heq. naive_solver.
  - rewrite append_nil_l, !append_cons, append_nil_l in Heq.
    injection Heq as <- _. simpl in H2. discriminate H2.
  - rewrite append_nil_l, !append_cons, append_nil_l in Heq.
    injection Heq as -> _. simpl in H1. discriminate H1.
  - rewrite !append_cons in Heq. injection Heq as -> Heq.
    simpl in H1, H2. apply orb_false_elim in H1 as [_ H1], H2 as [_ H2].
    destruct (IH p2 H1 H2 Heq) as [-> ->]. done.
Qed.

(** X2: a link into a processed file that parses, to something the file
    defines (the file itself, a [name] of an [<a>] or an [id] below its
    root), is not reported; for a fragment into a directory the file is the
    [index.html] of the directory. *)
Theorem defined_target_accepted paths path elt href url root s :
  attrib elt !! "href" = Some href →
  urlparse env href = Some url →
  url_scheme url = "" →
  target_path env path url ∈ paths →
  etree_parse env (target_path env path url) = Some root →
  defines root (url_fragment url) →
  all_anchors env paths ⊆ anchors s →
  check_link env path elt s = Ok tt s.
Proof.
  intros Hhref Hurl Hscheme Hin Hroot Hdef Hknown.
  pose proof (_GetAnchor_target path href url Hurl Hscheme) as Hanchor.
  destruct (negb (Str.truthy (url_fragment url)) && path_exists env _).
  { by apply check_link_skip with href. }
  rewrite (check_link_anchor path elt href _ s Hhref Hanchor).
  rewrite anchor_truthy, bool_decide_eq_true_2; simpl.
  { destruct s. by rewrite app_nil_r. }
  apply Hknown, elem_of_all_anchors. eexists. split; [done|].
  apply elem_of_file_anchors_iff. eauto.
Qed.

(** X3: when no path has a colon, a link whose target is built (it has a
    fragment, or its path does not exist) and is not something a processed
    file that parses defines is reported, with the two lines of one
    report. *)
Theorem undefined_target_reported paths path elt href url s :
  Forall colon_free paths →
  colon_free (target_path env path url) →
  attrib elt !! "href" = Some href →
  urlparse env href = Some url →
  url_scheme url = "" →
  url_fragment url ≠ "" ∨ path_exists env (ref_path_of env path url) = false →
  anchors s = all_anchors env paths →
  ¬ (target_path env path url ∈ paths
     ∧ ∃ root, etree_parse env (target_path env path url) = Some root
               ∧ defines root (url_fragment url)) →
  check_link env path elt s
  = Ok tt (mkState (anchors s)
             (stdout s ++ [broken_link_line1 path elt; broken_link_line2 href])).
Proof.
  intros Hpaths Htp Hhref Hurl Hscheme Hbuilt Hs Hundef.
  pose proof (_GetAnchor_target path href url Hurl Hscheme) as Hanchor.
  assert (negb (Str.truthy (url_fragment url))
          && path_exists env (ref_path_of env path url) = false) as Hc.
  { destruct Hbuilt as [Hfrag| ->]; [|apply andb_false_r].
    by apply truthy_true in Hfrag as ->. }
  rewrite Hc in Hanchor.
  rewrite (check_link_anchor path elt href _ s Hhref Hanchor).
  rewrite anchor_truthy, bool_decide_eq_false_2; [done|].
  rewrite Hs, elem_of_all_anchors. intros (p & Hp & Ha).
  apply elem_of_file_anchors_iff in Ha as (root & x & Hroot & Hdef & Heq).
  apply anchor_inj in Heq as [Heq Hx]; [|done|].
  - apply Hundef. rewrite Heq, Hx. eauto.
  - by eapply Forall_forall in Hpaths.
Qed.

End Reported.

Lemma defined_target_accepted_witness :
  let paths := ["/site/a.html"; "/site/docs/index.html"; "/site/index.html"] in
  let s := mkState (all_anchors Site.env paths) [] in
  check_link Site.env "/site/index.html"
    (Site.elt "a" [("href", "docs#start")] 10 []) s
  = Ok tt s.
Proof.
  intros paths s.
  apply (defined_target_accepted Site.env paths "/site/index.html" _
           "docs#start" (mkParseResult "" "" "docs" "" "" "start")
           Site.docs_index_html s).
  - vm_compute. reflexivity.
  - vm_compute. reflexivity.
  - reflexivity.
  - apply (bool_decide_unpack _). vm_compute. exact I.
  - vm_compute. reflexivity.
  - right. right.
    exists (Site.elt "p" [("id", "start")] 3
              [Site.elt "a" [("href", "../a.html#sec")] 3 []]).
    split; [|vm_compute; reflexivity].
    apply list_elem_of_lookup. exists 0. vm_compute. reflexivity.
  - reflexivity.
Defined.

Lemma undefined_target_reported_witness :
  let paths := ["/site/a.html"; "/site/docs/index.html"; "/site/index.html"] in
  let s := mkState (all_anchors Site.env paths) [] in
  let elt := Site.elt "a" [("href", "docs#nope")] 11 [] in
  check_link Site.env "/site/index.html" elt s
  = Ok tt (mkState (anchors s)
             [broken_link_line1 "/site/index.html" elt;
              broken_link_line2 "docs#nope"]).
Proof.
  intros paths s elt.
  apply (undefined_target_reported Site.env paths "/site/index.html" elt
           "docs#nope" (mkParseResult "" "" "docs" "" "" "nope") s).
  - repeat constructor.
  - reflexivity.
  - vm_compute. reflexivity.
  - vm_compute. reflexivity.
  - reflexivity.
  - left. simpl. discriminate.
  - reflexivity.
  - intros [_ (root & Hroot & Hdef)].
    assert (etree_parse Site.env
              (target_path Site.env "/site/index.html"
                 (mkParseResult "" "" "docs" "" "" "nope"))
            = Some Site.docs_index_html) as Hdocs by (vm_compute; reflexivity).
    rewrite Hdocs in Hroot. injection Hroot as <-.
    destruct Hdef as [Hx|[(e & He & Hx)|(e & He & Hx)]].
    + discriminate Hx.
    + assert (findall (Some "a") "name" Site.docs_index_html = []) as Hnone
        by (vm_compute; reflexivity).
      rewrite Hnone in He. by apply elem_of_nil in He.
    + assert (findall None "id" Site.docs_index_html
              = [Site.elt "p" [("id", "start")] 3
                   [Site.elt "a" [("href", "../a.html#sec")] 3 []]]) as Hone
        by (vm_compute; reflexivity).
      rewrite Hone in He. apply list_elem_of_singleton in He as ->.
      vm_compute in Hx. discriminate Hx.
Defined.

(** ** When a run completes *)

Lemma _GetAnchor_is_Some env path href :
  is_Some (_GetAnchor env path href) ↔ is_Some (urlparse env href).
Proof.
  unfold _GetAnchor. destruct (urlparse env href) as [url|]; simpl.
  - split; [eauto|intros _]. repeat case_match; eauto.
  - split; by intros [? ?].
Qed.

Lemma link_trace_done env known path elt href :
  attrib elt !! "href" = Some href →
  (link_trace env known path elt).2 = None ↔ is_Some (urlparse env href).
Proof.
  intros Hhref. rewrite <-(_GetAnchor_is_Some env path). unfold link_trace.
  rewrite Hhref. destruct (_GetAnchor env path href) as [anchor|]; simpl.
  - split; [eauto|intros _]. by destruct (Str.truthy anchor && _).
  - split; [done|by intros [? ?]].
Qed.

(** X4: the collection pass never stops the run; the run completes exactly
    when [urlparse] accepts the [href] of every [<a href>] below the root of
    every input file that parses, and a run that does not complete ends on
    the [ValueError] of [urlparse], never on a missing attribute. *)
Theorem run_completes_iff env paths s :
  completes (for_each paths (_CollectAnchors env) s)
  ∧ (completes (ProcessPaths env paths s)
     ↔ ∀ p root elt href,
         p ∈ paths → etree_parse env p = Some root →
         elt ∈ findall (Some "a") "href" root →
         attrib elt !! "href" = Some href →
         is_Some (urlparse env href))
  ∧ (∀ e s', ProcessPaths env paths s = Raised e s' → e = ValueError).
Proof.
  split; [by rewrite collect_all_spec|]. split; [|apply ProcessPaths_raises].
  rewrite ProcessPaths_spec, completes_finish. simpl.
  rewrite chain_complete, Forall_forall. split.
  - intros Hall p root elt href Hp Hroot Helt Hhref.
    specialize (Hall p Hp). unfold file_trace in Hall. rewrite Hroot in Hall.
    rewrite chain_complete, Forall_forall in Hall.
    by eapply (link_trace_done env _ p elt href Hhref), Hall.
  - intros Hall p Hp. unfold file_trace.
    destruct (etree_parse env p) as [root|] eqn:Hroot; [|done].
    rewrite chain_complete, Forall_forall. intros elt Helt.
    pose proof Helt as Hkey.
    eapply Forall_forall in Hkey; [|apply findall_key].
    destruct Hkey as [href Hhref].
    apply (link_trace_done env _ p elt href Hhref). eauto.
Qed.

(** ** What a run prints *)

Lemma chain_elem {A} (f : A → trace) l line :
  line ∈ (chain f l).1 → ∃ x, x ∈ l ∧ line ∈ (f x).1.
Proof.
  induction l as [|x l IH]; simpl; [by intros ?%elem_of_nil|].
  destruct (f x) as [lines [e|]] eqn:Hf; simpl.
  - intros Hin. exists x. split; [left|by rewrite Hf].
  - intros [Hin|Hin]%elem_of_app.
    + exists x. split; [left|by rewrite Hf].
    + destruct (IH Hin) as (y & Hy & Hline). exists y. split; [by right|done].
Qed.

Lemma elem_of_parse_diag env p line :
  line ∈ parse_diag env p
  → lxml_parse env p = ParseRaises ∧ line = unable_to_parse p.
Proof.
  unfold parse_diag. destruct (lxml_parse env p) as [|root].
  - by intros ->%list_elem_of_singleton.
  - by intros ?%elem_of_nil.
Qed.

(** X5: a run never prints anything else than the diagnostic of an input
    file on which [etree.parse] raises and the two lines of a report about an
    [<a href>] below the root of an input file that parses, whose target is
    not empty and not in the anchor set of the run; this holds also for a
    run that stops on an exception. *)
Theorem printed_line_justified env paths line :
  line ∈ stdout (final (ProcessPaths env paths init)) →
  (∃ p, p ∈ paths ∧ lxml_parse env p = ParseRaises
        ∧ line = unable_to_parse p)
  ∨ (∃ p root elt href anchor,
       p ∈ paths ∧ etree_parse env p = Some root
       ∧ elt ∈ findall (Some "a") "href" root
       ∧ attrib elt !! "href" = Some href
       ∧ _GetAnchor env p href = Some anchor
       ∧ anchor ≠ ""
       ∧ (anchor ∉ anchors (final (ProcessPaths env paths init)))
       ∧ (line = broken_link_line1 p elt ∨ line = broken_link_line2 href)).
Proof.
  rewrite ProcessPaths_spec, anchors_finish, stdout_finish. simpl.
  set (known := ∅ ∪ all_anchors env paths).
  intros [Hdiag|Hline]%elem_of_app.
  - apply list_elem_of_In, in_flat_map in Hdiag as (p & Hp & Hdiag).
    apply list_elem_of_In in Hp, Hdiag.
    apply elem_of_parse_diag in Hdiag as [Hraises ->]. left. eauto.
  - apply chain_elem in Hline as (p & Hp & Hline). unfold file_trace in Hline.
    destruct (etree_parse env p) as [root|] eqn:Hparse.
    + apply chain_elem in Hline as (elt & Helt & Hline).
      unfold link_trace in Hline.
      destruct (attrib elt !! "href") as [href|] eqn:Hhref;
        [|by apply elem_of_nil in Hline].
      destruct (_GetAnchor env p href) as [anchor|] eqn:Hanchor;
        [|by apply elem_of_nil in Hline].
      destruct (Str.truthy anchor && negb (bool_decide (anchor ∈ known)))
        eqn:Hbroken; [|by apply elem_of_nil in Hline].
      apply andb_prop in Hbroken as [Htruthy Hnotin].
      apply truthy_true in Htruthy.
      apply negb_true_iff, bool_decide_eq_false in Hnotin.
      right. exists p, root, elt, href, anchor.
      repeat (split; [done|]).
      simpl in Hline. rewrite !elem_of_cons in Hline.
      destruct Hline as [?|[?|?%elem_of_nil]]; [by left|by right|done].
    + simpl in Hline. apply elem_of_parse_diag in Hline as [Hraises ->].
      left. eauto.
Qed.

(** X6: in a run that completes, every [<a href>] below the root of an
    input file that parses whose target is not empty and not in the anchor
    set of the run is reported: its two lines are printed, one after the
    other. *)
Theorem broken_link_reported env paths p root elt href anchor :
  completes (ProcessPaths env paths init) →
  p ∈ paths →
  etree_parse env p = Some root →
  elt ∈ findall (Some "a") "href" root →
  attrib elt !! "href" = Some href →
  _GetAnchor env p href = Some anchor →
  anchor ≠ "" →
  anchor ∉ anchors (final (ProcessPaths env paths init)) →
  ∃ before after,
    stdout (final (ProcessPaths env paths init))
    = before ++ [broken_link_line1 p elt; broken_link_line2 href] ++ after.
Proof.
  intros Hdone Hp Hroot Helt Hhref Hanchor Hne Hnotin.
  rewrite ProcessPaths_stdout by done.
  pose proof (proj1 (ProcessPaths_completes env paths) Hdone) as Hall.
  rewrite ProcessPaths_spec, anchors_finish in Hnotin. simpl in Hnotin.
  assert (anchor ∉ all_anchors env paths) as Hnotin' by set_solver.
  set (known := all_anchors env paths) in *.
  eapply Forall_forall in Hall; [|exact Hp]. simpl in Hall.
  apply list_elem_of_split in Hp as (paths1 & paths2 & ->).
  apply list_elem_of_split in Helt as (elts1 & elts2 & Helts).
  rewrite !flat_map_app. simpl.
  assert ((file_trace env known p).1
          = flat_map (λ e, (link_trace env known p e).1)
                     (findall (Some "a") "href" root)) as ->.
  { unfold file_trace in Hall |- *. rewrite Hroot in Hall |- *.
    by apply chain_lines. }
  rewrite Helts, flat_map_app. simpl.
  assert ((link_trace env known p elt).1
          = [broken_link_line1 p elt; broken_link_line2 href]) as ->.
  { unfold link_trace. rewrite Hhref, Hanchor.
    apply truthy_true in Hne as ->.
    by rewrite bool_decide_eq_false_2. }
  set (lines q := (file_trace env known q).1).
  set (link e := (link_trace env known p e).1).
  exists ((flat_map (parse_diag env) paths1
           ++ parse_diag env p ++ flat_map (parse_diag env) paths2)
          ++ flat_map lines paths1 ++ flat_map link elts1),
         (flat_map link elts2 ++ flat_map lines paths2).
  by rewrite <-!(assoc_L (++)).
Qed.

Lemma printed_line_justified_witness :
  let paths := ["/site/index.html"] in
  let line := broken_link_line2 "#top" in
  (∃ p, p ∈ paths ∧ lxml_parse Site.env p = ParseRaises
        ∧ line = unable_to_parse p)
  ∨ (∃ p root elt href anchor,
       p ∈ paths ∧ etree_parse Site.env p = Some root
       ∧ elt ∈ findall (Some "a") "href" root
       ∧ attrib elt !! "href" = Some href
       ∧ _GetAnchor Site.env p href = Some anchor
       ∧ anchor ≠ ""
       ∧ (anchor ∉ anchors (final (ProcessPaths Site.env paths init)))
       ∧ (line = broken_link_line1 p elt ∨ line = broken_link_line2 href)).
Proof.
  intros paths line. apply (printed_line_justified Site.env paths line).
  apply (bool_decide_unpack _). vm_compute. exact I.
Defined.

Lemma broken_link_reported_witness :
  let paths := ["/site/index.html"] in
  let elt := Site.elt "a" [("href", "#top")] 8 [] in
  ∃ before after,
    stdout (final (ProcessPaths Site.env paths init))
    = before
      ++ [broken_link_line1 "/site/index.html" elt; broken_link_line2 "#top"]
      ++ after.
Proof.
  intros paths elt.
  apply (broken_link_reported Site.env paths "/site/index.html"
           Site.index_html elt "#top" "/site/index.html:top").
  - vm_compute. exact I.
  - apply list_elem_of_here.
  - vm_compute. reflexivity.
  - apply list_elem_of_lookup. exists 1. vm_compute. reflexivity.
  - vm_compute. reflexivity.
  - vm_compute. reflexivity.
  - discriminate.
  - intros Hin. apply (bool_decide_pack _) in Hin. vm_compute in Hin.
    exact Hin.
Defined.

(** ** The files a run processes *)

(** X7: [GetFilePaths] returns, in sorted order, exactly the paths its
    arguments stand for, as many times as they come: the files
    [_GetPathsForDir] finds for an argument that is a directory, the
    [realpath] of any other argument; it drops nothing and keeps
    duplicates. *)
Theorem GetFilePaths_sorted_all env inputs :
  Sorted String.le (GetFilePaths env inputs)
  ∧ GetFilePaths env inputs ≡ₚ flat_map (paths_of env) inputs
  ∧ (∀ p, p ∈ GetFilePaths env inputs
          ↔ ∃ x, x ∈ inputs
                 ∧ if isdir env x then p ∈ _GetPathsForDir env x
                   else p = realpath env x).
Proof.
  rewrite GetFilePaths_flat_map. split; [|split].
  - apply Sorted_merge_sort; apply _.
  - apply sorted_perm.
  - intros p. rewrite sorted_perm, list_elem_of_In, in_flat_map.
    apply exist_proper. intros x. rewrite <-!list_elem_of_In.
    unfold paths_of. destruct (isdir env x); [done|].
    by rewrite list_elem_of_singleton.
Qed.

(** X8: an argument that is not a directory is processed under its
    [realpath], whatever its name is and whether it exists or not. *)
Theorem file_argument_processed env inputs p :
  p ∈ inputs →
  isdir env p = false →
  realpath env p ∈ GetFilePaths env inputs.
Proof.
  intros Hp Hdir. apply GetFilePaths_sorted_all. exists p. by rewrite Hdir.
Qed.

Lemma file_argument_processed_witness :
  realpath Site.env "logo.png" ∈ GetFilePaths Site.env ["docs"; "logo.png"].
Proof.
  apply (file_argument_processed Site.env ["docs"; "logo.png"] "logo.png").
  - apply (bool_decide_unpack _). vm_compute. exact I.
  - vm_compute. reflexivity.
Defined.

(** ** Which files of a directory are taken *)

Lemma fnmatch_literal lit name :
  urllib.forallb literal_char lit = true →
  fnmatch lit name = bool_decide (name = lit).
Proof.
  revert name. induction lit as [|c lit IH]; intros name Hlit; [done|].
  simpl in Hlit. apply andb_prop in Hlit as [Hc Hlit].
  unfold literal_char in Hc. apply andb_prop in Hc as [Hstar Hany].
  apply negb_true_iff in Hstar, Hany. simpl. rewrite Hstar, Hany. simpl.
  destruct name as [|d name].
  - symmetry. by apply bool_decide_eq_false_2.
  - rewrite IH by done. destruct (Ascii.eqb_spec c d) as [->|Hcd]; simpl.
    + apply bool_decide_ext. naive_solver.
    + symmetry. apply bool_decide_eq_false_2. naive_solver.
Qed.

Lemma fnmatch_star lit name :
  urllib.forallb literal_char lit = true →
  fnmatch (String "*" lit) name = is_tail lit name.
Proof.
  intros Hlit. simpl. induction name as [|d name IH].
  - rewrite fnmatch_literal by done. simpl. f_equal.
    apply bool_decide_ext. naive_solver.
  - rewrite fnmatch_literal by done. simpl. rewrite <-IH. f_equal.
    apply bool_decide_ext. naive_solver.
Qed.

Lemma is_tail_refl t : is_tail t t = true.
Proof.
  destruct t as [|c t]; [reflexivity|]. simpl.
  by rewrite bool_decide_eq_true_2.
Qed.

Lemma is_tail_both t1 t2 n :
  is_tail t1 n = true → is_tail t2 n = true →
  is_tail t1 t2 = true ∨ is_tail t2 t1 = true.
Proof.
  induction n as [|c n IH]; simpl.
  - rewrite !orb_false_r. intros ->%bool_decide_eq_true ->%bool_decide_eq_true.
    by left.
  - intros [H1|H1]%orb_prop [H2|H2]%orb_prop.
    + apply bool_decide_eq_true in H1 as ->, H2 as ->.
      left. apply is_tail_refl.
    + apply bool_decide_eq_true in H1 as ->. right. simpl.
      rewrite H2. apply orb_true_r.
    + apply bool_decide_eq_true in H2 as ->. left. simpl.
      rewrite H1. apply orb_true_r.
    + by apply IH.
Qed.

(** The four extensions exclude each other. *)
Ltac two_extensions H1 H2 :=
  exfalso; destruct (is_tail_both _ _ _ H1 H2) as [H|H];
  vm_compute in H; discriminate H.

Lemma hits_extension env root fn :
  hits env (root, fn)
  = if has_html_extension fn then [realpath env (posixpath.join root fn)]
    else [].
Proof.
  unfold hits, has_html_extension, FILE_PATTERNS. cbn [flat_map fst snd].
  rewrite !fnmatch_star by reflexivity.
  destruct (is_tail ".htm" fn) eqn:H1, (is_tail ".HTM" fn) eqn:H2,
    (is_tail ".html" fn) eqn:H3, (is_tail ".HTML" fn) eqn:H4;
    try reflexivity;
    first [two_extensions H1 H2 | two_extensions H1 H3 | two_extensions H1 H4
          | two_extensions H2 H3 | two_extensions H2 H4
          | two_extensions H3 H4].
Qed.

(** X9: of the files [os.walk] lists under a directory, [_GetPathsForDir]
    returns those whose name ends in [.htm], [.HTM], [.html] or [.HTML],
    each exactly once, as the [realpath] of its directory joined with its
    name, and no other file. *)
Theorem _GetPathsForDir_extensions env directory :
  _GetPathsForDir env directory
  ≡ₚ flat_map (λ '(root, fn),
                 if has_html_extension fn
                 then [realpath env (posixpath.join root fn)] else [])
              (listing env directory).
Proof.
  rewrite _GetPathsForDir_listing. erewrite flat_map_ext; [done|].
  intros [root fn]. apply hits_extension.
Qed.

(** An extension in another mix of cases is not one of the four. *)
Example mixed_case_extension :
  has_html_extension "page.Html" = false
  ∧ has_html_extension "page.html" = true
  ∧ has_html_extension "page.html.bak" = false.
Proof. repeat split; vm_compute; reflexivity. Qed.

(** ** The debugging aid *)

Lemma for_each_print (f : string → string) l s :
  for_each l (λ x, print (f x)) s
  = Ok tt (mkState (anchors s) (stdout s ++ List.map f l)).
Proof.
  revert s. induction l as [|x l IH]; intros s; simpl.
  - destruct s. unfold mret, M_ret. simpl. by rewrite app_nil_r.
  - unfold mbind, M_bind, print at 1. rewrite IH. simpl.
    by rewrite <-(assoc_L (++)).
Qed.

(** X10: [_PrintAnchors] leaves the anchor set as it is and prints, after
    its heading, one line for each anchor of the set, each anchor once, in
    sorted order. *)
Theorem _PrintAnchors_sorted path s :
  let listed := sorted (elements (anchors s)) in
  _PrintAnchors path s
  = Ok tt (mkState (anchors s)
             (stdout s ++ ("==== ANCHORS in " +:+ path +:+ ":")
                          :: List.map (λ a, "====     " +:+ a) listed))
  ∧ Sorted String.le listed
  ∧ NoDup listed
  ∧ (∀ a, a ∈ listed ↔ a ∈ anchors s).
Proof.
  intros listed. split; [|split; [|split]].
  - unfold _PrintAnchors, mbind, M_bind, print at 1, get_anchors.
    rewrite for_each_print. simpl. by rewrite <-(assoc_L (++)).
  - apply Sorted_merge_sort; apply _.
  - unfold listed. rewrite sorted_perm. apply NoDup_elements.
  - intros a. unfold listed. rewrite sorted_perm. apply elem_of_elements.
Qed.

(** ** The order of the input files and the reports *)




